(** * gcloud-node: the stream router and its BigQuery callers

    A shallow embedding of [lib/common/stream-router.js], of the
    methods of [lib/bigquery/index.js] ([getDatasets], [getJobs],
    [query], [createDataset], and [startQuery] up to the point where it
    builds the request body with a deep merge) and of
    [lib/bigquery/job.js] (the constructor, [getMetadata] and
    [getQueryResults]).

    JavaScript values live in a small value type; objects live in a heap
    indexed by locations, so that sharing and in-place mutation of a
    caller's object are visible.  The event-driven stream is a state
    machine stepped by the things that can happen to it: the consumer
    starts reading, a page fetch completes, the consumer ends the
    stream.

    The packages that the router builds on are modelled by what they
    are documented to do:
    - [through2] and [stream-events]: an object stream with a ['data']
      listener.  [push(x)] from a callback that runs in a turn of its
      own hands [x] to the listener on the spot; [push(x)] while a read
      is running (a fetch that calls back before it returns) buffers
      [x], and what is buffered is handed to the listener when the read
      has returned, [end()] or not.  [emit('error', e)] runs the
      ['error'] listeners and nothing else, and throws when there is
      none.  [end()] ends the stream (a second [end()] does nothing).
      ['reading'] is emitted when the consumer first reads, and not for
      a stream that has ended;
    - [concat-stream], piped to: it collects the items pushed and calls
      its handler with them when the source has ended;
    - [extend]: the shallow merge of own properties that skips
      undefined values. *)

From stdpp Require Import base numbers strings pretty list option gmap fin_maps.

Local Open Scope Z_scope.

(** ** JavaScript values and the object heap *)

Module Js.

Definition loc := positive.

(** Numbers are modelled by integers: the counters of the router are
    only ever decremented by one and compared with zero and minus one.
    Numbers that are not integers (1.5, NaN, the infinities) and
    integers beyond 2^53 are not represented: what is proved of a limit
    is proved of integer limits. *)
Inductive value :=
  | VUndefined
  | VNull
  | VBool (b : bool)
  | VNum (n : Z)
  | VStr (s : string)
  | VFun (f : nat)
  | VObj (l : loc).

#[global] Instance value_eq_dec : EqDecision value.
Proof. solve_decision. Defined.

#[global] Instance value_inhabited : Inhabited value := populate VUndefined.

Abbreviation obj := (gmap string value).
Abbreviation heap := (gmap loc obj).

(** [if (v)], [v && ...], [v || ...]. *)
Definition truthy (v : value) : bool :=
  match v with
  | VUndefined | VNull => false
  | VBool b => b
  | VNum n => negb (n =? 0)
  | VStr s => negb (String.eqb s "")
  | VFun _ | VObj _ => true
  end.

(** [v === false]. *)
Definition is_false (v : value) : bool :=
  match v with VBool false => true | _ => false end.

(** [{...}]: a new object at a location the heap does not use yet. *)
Definition alloc (h : heap) (o : obj) : heap * loc :=
  let l := fresh (dom h) in (<[l := o]> h, l).

(** [v.k] for a value that is not null or undefined. *)
Definition get (h : heap) (v : value) (k : string) : value :=
  match v with
  | VObj l =>
      match h !! l with
      | Some o => default VUndefined (o !! k)
      | None => VUndefined
      end
  | _ => VUndefined
  end.

(** The class name that [Object.prototype.toString] reports, in lower
    case. *)
Definition type_tag (v : value) : string :=
  match v with
  | VUndefined => "undefined"
  | VNull => "null"
  | VBool _ => "boolean"
  | VNum _ => "number"
  | VStr _ => "string"
  | VFun _ => "function"
  | VObj _ => "object"
  end.

(** Modelled from the spec: [util.is] of [lib/common/util.js], which is
    not among the sources.  The normalizer asks it whether an argument
    is callable, whether the query is an associative structure and
    whether a limit field is numeric; it compares the class of the value
    with the type name. *)
Definition util_is (v : value) (type : string) : bool :=
  bool_decide (type_tag v = type).

Definition as_num (v : value) : Z :=
  match v with VNum n => n | _ => 0 end.

(** The own enumerable properties of a value, as [for (name in v)] sees
    them: the fields of an object, the characters of a string, nothing
    for the other primitives. *)
Fixpoint string_props (i : nat) (s : string) : obj :=
  match s with
  | EmptyString => ∅
  | String c s' => <[pretty i := VStr (String c EmptyString)]> (string_props (S i) s')
  end.

Definition props (h : heap) (v : value) : obj :=
  match v with
  | VObj l => default ∅ (h !! l)
  | VStr s => string_props 0 s
  | _ => ∅
  end.

Definition defined (v : value) : Prop := v ≠ VUndefined.

#[global] Instance defined_dec v : Decision (defined v).
Proof. unfold defined. apply _. Defined.

(** One source of the [extend] package, shallow form: every property of
    the source whose value is not undefined is assigned to the target. *)
Definition extend_with (target source : obj) : obj :=
  filter (λ kv, defined kv.2) source ∪ target.

(** [extend({}, source, ...)]: a new object that receives the properties
    of the sources, from left to right. *)
Definition extend (h : heap) (sources : list obj) : heap * loc :=
  alloc h (foldl extend_with ∅ sources).

(** [o.k = v] on an object of the heap. *)
Definition set (h : heap) (l : loc) (k : string) (v : value) : heap :=
  alter (insert k v) l h.

(** [delete o.k]. *)
Definition delete_prop (h : heap) (l : loc) (k : string) : heap :=
  alter (delete k) l h.

(** [v.k] where [v] may be anything: reading a property of null or of
    undefined throws. *)
Definition read (h : heap) (v : value) (k : string) : option value :=
  match v with
  | VUndefined | VNull => None
  | _ => Some (get h v k)
  end.

End Js.

Import Js.

(** ** lib/common/stream-router.js *)

Module StreamRouter.

(** The object that [parseArguments_] returns. *)
Record descriptor := Descriptor {
  query : value;
  callback : value;
  maxResults : Z;
  autoPaginate : bool
}.

(** [args[i]]; reading past the end of [arguments], or at index -1,
    gives undefined. *)
Definition arg (args : list value) (i : nat) : value :=
  default VUndefined (args !! i).

Definition lastArgument (args : list value) : value :=
  default VUndefined (last args).

Definition parseArguments_ (h : heap) (args : list value) : heap * descriptor :=
  let firstArgument := arg args 0 in
  let lastArgument := lastArgument args in
  let query := if util_is firstArgument "function" then VUndefined else firstArgument in
  let callback := if util_is firstArgument "function" then firstArgument else VUndefined in
  let callback := if util_is lastArgument "function" then lastArgument else callback in
  let maxResults :=
    if util_is query "object" then
      if util_is (get h query "maxResults") "number" then as_num (get h query "maxResults")
      else if util_is (get h query "limitVal") "number" then as_num (get h query "limitVal")
      else if util_is (get h query "pageSize") "number" then as_num (get h query "pageSize")
      else -1
    else -1 in
  let autoPaginate :=
    if util_is query "object" then
      if truthy callback &&
         (negb (maxResults =? -1) ||
          is_false (get h query "autoPaginate") ||
          is_false (get h query "autoPaginateVal"))
      then false else true
    else true in
  if truthy query then
    (h, Descriptor query callback maxResults autoPaginate)
  else
    let '(h', l) := alloc h ∅ in
    (h', Descriptor (VObj l) callback maxResults autoPaginate).

(** What a page fetch hands to its callback:
    [callback(err, results, nextQuery, apiResponse)]. *)
Record page := Page {
  err : value;
  results : list value;
  nextQuery : value;
  apiResponse : value
}.

(** What is done to the stream object: [stream.push(result)],
    [stream.emit('error', err)], [stream.end()]. *)
Inductive stream_call :=
  | EvPush (v : value)
  | EvError (e : value)
  | EvEnd.

#[global] Instance stream_call_eq_dec : EqDecision stream_call.
Proof. solve_decision. Defined.

(** What can happen to a stream between two turns of the event loop.
    [Reading]: the consumer starts to read (the ['reading'] event of
    stream-events) and the fetch that this issues calls back later.
    [Result p]: the page fetch in flight calls back, in a later turn.
    [ConsumerEnd]: the consumer calls [stream.end()].
    [ReadingSync pages]: the consumer starts to read and the fetches
    call back before they return, inside that read, with the pages
    given, as far as these go.
    [OnError]: the consumer attaches an ['error'] listener. *)
Inductive event :=
  | Reading
  | Result (p : page)
  | ConsumerEnd
  | ReadingSync (pages : list page)
  | OnError.

(** The variables that the closures of [runAsStream_] share, with the
    bookkeeping of the page fetches: [calls] lists the queries given to
    [originalMethod] so far, [in_flight] counts the calls that have not
    called back yet, [reading] says that the [once('reading')] listener
    has fired, [out] lists what was done to the stream, oldest first,
    [error_listener] says that the stream has an ['error'] listener. *)
Record state := State {
  parsedArguments : descriptor;
  resultsToSend : Z;
  streamEnded : bool;
  reading : bool;
  in_flight : nat;
  calls : list value;
  out : list stream_call;
  error_listener : bool
}.

(** The items pushed so far. *)
Definition pushed (o : list stream_call) : list value :=
  omap (λ c, match c with EvPush v => Some v | _ => None end) o.

Definition log (c : stream_call) (s : state) : state :=
  {| parsedArguments := parsedArguments s; resultsToSend := resultsToSend s;
     streamEnded := streamEnded s; reading := reading s;
     in_flight := in_flight s; calls := calls s; out := out s ++ [c];
     error_listener := error_listener s |}.

(** The replaced [stream.end]: set the flag, then end the stream. *)
Definition stream_end (s : state) : state :=
  log EvEnd
    {| parsedArguments := parsedArguments s; resultsToSend := resultsToSend s;
       streamEnded := true; reading := reading s;
       in_flight := in_flight s; calls := calls s; out := out s;
       error_listener := error_listener s |}.

(** [resultsToSend--]. *)
Definition decrement (s : state) : state :=
  {| parsedArguments := parsedArguments s; resultsToSend := resultsToSend s - 1;
     streamEnded := streamEnded s; reading := reading s;
     in_flight := in_flight s; calls := calls s; out := out s;
     error_listener := error_listener s |}.

(** [originalMethod(q, onResultSet)]: one more fetch in flight. *)
Definition originalMethod (q : value) (s : state) : state :=
  {| parsedArguments := parsedArguments s; resultsToSend := resultsToSend s;
     streamEnded := streamEnded s; reading := reading s;
     in_flight := S (in_flight s); calls := calls s ++ [q]; out := out s;
     error_listener := error_listener s |}.

(** The fetch whose callback is running is no longer in flight. *)
Definition called_back (s : state) : state :=
  {| parsedArguments := parsedArguments s; resultsToSend := resultsToSend s;
     streamEnded := streamEnded s; reading := reading s;
     in_flight := pred (in_flight s); calls := calls s; out := out s;
     error_listener := error_listener s |}.

Definition start_reading (s : state) : state :=
  {| parsedArguments := parsedArguments s; resultsToSend := resultsToSend s;
     streamEnded := streamEnded s; reading := true;
     in_flight := in_flight s; calls := calls s; out := out s;
     error_listener := error_listener s |}.

(** [stream.on('error', listener)]. *)
Definition on_error (s : state) : state :=
  {| parsedArguments := parsedArguments s; resultsToSend := resultsToSend s;
     streamEnded := streamEnded s; reading := reading s;
     in_flight := in_flight s; calls := calls s; out := out s;
     error_listener := true |}.

Section Handler.

(** The consumer's ['data'] listener: it is handed each item, and
    answers whether it calls [this.end()] there, as in
    [getDatasets().on('data', function(dataset) { this.end(); })].
    It may look at everything received so far, the new item last. *)
Variable consumer : list value → bool.

(** [stream.push(result)] from a callback that runs in a turn of its
    own: the stream has nothing buffered, so the listener runs on the
    spot, inside [push]. *)
Definition push (result : value) (s : state) : state :=
  let s := log (EvPush result) s in
  if consumer (pushed (out s)) then stream_end s else s.

(** [while ((result = results.shift()) && resultsToSend !== 0 &&
    !streamEnded) { stream.push(result); resultsToSend--; }]:
    [shift] on the empty array gives undefined and stops the loop, and
    so does any other item that is not truthy.  The array belongs to the
    page; what is left in it when the loop stops is not looked at
    again. *)
Fixpoint emit (results : list value) (s : state) : state :=
  match results with
  | [] => s
  | result :: results =>
      if truthy result && negb (resultsToSend s =? 0) && negb (streamEnded s)
      then emit results (decrement (push result s))
      else s
  end.

(** [stream.emit('error', err)] runs the ['error'] listeners; when there
    is none it throws, which leaves the handler there: [stream.end()]
    is not reached, and the exception goes to whoever called back. *)
Definition onResultSet (p : page) (s : state) : state :=
  if truthy (err p) then
    let s := log (EvError (err p)) s in
    if error_listener s then stream_end s else s
  else
    let s := emit (results p) s in
    if streamEnded s then s
    else if resultsToSend s =? 0 then stream_end s
    else if truthy (nextQuery p) then originalMethod (nextQuery p) s
    else stream_end s.

(** The fetch in flight calls back with [p].  A result can only arrive
    for a fetch that is in flight: the page-fetch operation calls back
    once per call. *)
Definition result (p : page) (s : state) : option state :=
  match in_flight s with
  | O => None
  | S _ => Some (onResultSet p (called_back s))
  end.

(** The pages answer the fetches in order; a page that no fetch asked
    for is never looked at. *)
Fixpoint deliver (s : state) (pages : list page) : state :=
  match pages with
  | [] => s
  | p :: pages =>
      match result p s with
      | Some s' => deliver s' pages
      | None => s
      end
  end.

End Handler.

(** While a read is running the stream buffers what is pushed and runs
    no ['data'] listener, so that nothing can end the stream between two
    pushes of a fetch that calls back inside the read. *)
Definition buffering : list value → bool := λ _, false.

Section Driver.

Variable consumer : list value → bool.

(** What the stream does with the items [buffered] during a read once
    the read has returned: it hands them to the listener one by one, all
    of them, whether or not the listener calls [end()] on the way (the
    listener has [seen] the items before them). *)
Fixpoint hand_over (seen buffered : list value) (s : state) : state :=
  match buffered with
  | [] => s
  | v :: buffered =>
      let seen := seen ++ [v] in
      hand_over seen buffered (if consumer seen then stream_end s else s)
  end.

(** One event.  [stream.once('reading', function() {
    originalMethod(query, onResultSet); })]: the listener fires at the
    first read of a stream that has not ended; a stream that has ended
    asks for no data, so that ['reading'] is not emitted for it any
    more. *)
Definition step (s : state) (e : event) : option state :=
  match e with
  | Reading =>
      if reading s || streamEnded s then Some s
      else Some (originalMethod (query (parsedArguments s)) (start_reading s))
  | Result p => result consumer p s
  | ConsumerEnd => Some (stream_end s)
  | ReadingSync pages =>
      if reading s || streamEnded s then Some s
      else
        let s' := deliver buffering
                    (originalMethod (query (parsedArguments s)) (start_reading s))
                    pages in
        Some (hand_over (pushed (out s))
                (drop (length (pushed (out s))) (pushed (out s'))) s')
  | OnError => Some (on_error s)
  end.

Fixpoint run (s : state) (es : list event) : option state :=
  match es with
  | [] => Some s
  | e :: es => s' ← step s e; run s' es
  end.

End Driver.

(** The stream as [runAsStream_] returns it: nothing fetched, nothing
    pushed, the ['reading'] listener waiting. *)
Definition runAsStream_ (parsedArguments : descriptor) : state :=
  {| parsedArguments := parsedArguments;
     resultsToSend := maxResults parsedArguments;
     streamEnded := false; reading := false;
     in_flight := 0; calls := []; out := [];
     error_listener := false |}.

(** What [router_] does with the parsed arguments. *)
Inductive routed :=
  | Direct (query callback : value)
  | Aggregate (callback : value) (stream : state)
  | Streaming (stream : state).

Definition router_ (parsedArguments : descriptor) : routed :=
  if truthy (callback parsedArguments) then
    if autoPaginate parsedArguments then
      Aggregate (callback parsedArguments) (runAsStream_ parsedArguments)
    else
      Direct (query parsedArguments) (callback parsedArguments)
  else
    Streaming (runAsStream_ parsedArguments).

(** A call of the user's callback: with the four raw arguments of a page
    fetch, with an error alone, or with [(null, results)]. *)
Inductive cb_call :=
  | CbPage (p : page)
  | CbError (e : value)
  | CbResults (items : list value).

(** [.on('error', callback).pipe(concat(function(results) {
    callback(null, results); }))].  The listener runs at each
    [emit('error')]; emitting an error does nothing else to the stream.
    The pipe hands every pushed item to the concat stream and ends it
    when the source ends, which is when the concat stream calls back
    with the items it has: an array of them when the items are objects,
    as the datasets, jobs and rows of this library are.  Ending a stream
    that has ended does nothing. *)
Fixpoint concat_pipe (body : list value) (ended : bool)
    (o : list stream_call) : list cb_call :=
  match o with
  | [] => []
  | EvPush v :: o => concat_pipe (if ended then body else body ++ [v]) ended o
  | EvError e :: o => CbError e :: concat_pipe body ended o
  | EvEnd :: o =>
      if ended then concat_pipe body ended o
      else CbResults body :: concat_pipe body true o
  end.

(** The concat stream only reads. *)
Definition concat_consumer : list value → bool := λ _, false.

(** The calls of the user's callback, given the results that the page
    fetches produce, in order.  In the direct mode the callback is the
    one handed to [originalMethod]; in the aggregate mode the callback
    is attached as the ['error'] listener and the pipe makes the stream
    read at once. *)
Definition callbacks (r : routed) (pages : list page) : list cb_call :=
  match r with
  | Direct _ _ => match pages with p :: _ => [CbPage p] | [] => [] end
  | Aggregate _ s =>
      match step concat_consumer (on_error s) Reading with
      | Some s => concat_pipe [] false (out (deliver concat_consumer s pages))
      | None => []
      end
  | Streaming _ => []
  end.

(** The queries given to [originalMethod], under the same results. *)
Definition fetches (r : routed) (pages : list page) : list value :=
  match r with
  | Direct q _ => [q]
  | Aggregate _ s =>
      match step concat_consumer (on_error s) Reading with
      | Some s => calls (deliver concat_consumer s pages)
      | None => []
      end
  | Streaming s => calls s
  end.

(** The method that [extend] puts on the prototype in place of the
    original one: [function() { var parsedArguments =
    streamRouter.parseArguments_(arguments); return
    streamRouter.router_(parsedArguments, originalMethod.bind(this)); }]. *)
Definition extended_method (h : heap) (args : list value) : heap * routed :=
  let '(h, parsedArguments) := parseArguments_ h args in
  (h, router_ parsedArguments).

End StreamRouter.

(** ** lib/bigquery/index.js and lib/bigquery/job.js *)

Module BigQuery.

Definition BIGQUERY_BASE_URL : string :=
  "https://www.googleapis.com/bigquery/v2/projects/".

(** The options object that [makeReq_] builds; [uri] keeps the operands
    of the string concatenation, in order. *)
Record request := Request {
  method : string;
  qs : value;
  uri : list value;
  json : value
}.

Definition makeReq_ (h : heap) (this : value) (method : string)
    (path : list value) (query body : value) : request :=
  {| method := method;
     qs := query;
     uri := VStr BIGQUERY_BASE_URL :: get h this "projectId" :: path;
     json := if truthy body then body else VUndefined |}.

(** The arguments that a list method gives to its callback; [None] for
    the items is [null]. *)
Record reply := Reply {
  r_err : value;
  r_items : option (list value);
  r_nextQuery : value;
  r_resp : value
}.

(** [new Job(bigQuery, id)], from job.js. *)
Definition Job (h : heap) (bigQuery id : value) : heap * loc :=
  let '(h, this) := alloc h ∅ in
  let h := set h this "bigQuery" bigQuery in
  let h := set h this "id" id in
  let '(h, m) := alloc h ∅ in
  (set h this "metadata" (VObj m), this).

(** [if (util.is(query, 'function')) { callback = query; query = {}; }
    query = query || {};], the opening of [getDatasets] and of
    [getJobs]. *)
Definition optional_query (h : heap) (query callback : value)
    : heap * value * value :=
  let '(h, query, callback) :=
    if util_is query "function" then
      let '(h, l) := alloc h ∅ in (h, VObj l, query)
    else (h, query, callback) in
  if truthy query then (h, query, callback)
  else let '(h, l) := alloc h ∅ in (h, VObj l, callback).

(** [var nextQuery = null; if (resp.nextPageToken) { nextQuery =
    extend({}, query, { pageToken: resp.nextPageToken }); }] *)
Definition next_query (h : heap) (query token : value) : heap * value :=
  if truthy token then
    let '(h, l) := extend h [props h query; {[ "pageToken" := token ]}] in
    (h, VObj l)
  else (h, VNull).

Section Methods.

(** [that.dataset(id)], which is [new Dataset(that, id)]; the
    constructor is in lib/bigquery/dataset.js, which is not among the
    sources. *)
Variable dataset : heap → value → value → heap * loc.

(** [(resp.datasets || []).map(...)] over the elements of the array. *)
Fixpoint wrap_datasets (h : heap) (that : value) (datasets : list value)
    : option (heap * list value) :=
  match datasets with
  | [] => Some (h, [])
  | d :: datasets =>
      ref ← read h d "datasetReference";
      id ← read h ref "datasetId";
      let '(h, ds) := dataset h that id in
      let h := set h ds "metadata" d in
      '(h, rest) ← wrap_datasets h that datasets;
      Some (h, VObj ds :: rest)
  end.

(** [(resp.jobs || []).map(...)]. *)
Fixpoint wrap_jobs (h : heap) (that : value) (jobs : list value)
    : option (heap * list value) :=
  match jobs with
  | [] => Some (h, [])
  | jobObject :: jobs =>
      id ← read h jobObject "id";
      let '(h, job) := Job h that id in
      let h := set h job "metadata" jobObject in
      '(h, rest) ← wrap_jobs h that jobs;
      Some (h, VObj job :: rest)
  end.

(** [getDatasets] up to the request: the query and the callback that
    the response handler closes over, and the request. *)
Definition getDatasets (h : heap) (this query callback : value)
    : heap * value * value * request :=
  let '(h, query, callback) := optional_query h query callback in
  (h, query, callback, makeReq_ h this "GET" [VStr "/datasets"] query VNull).

(** The response handler of [getDatasets], run on [(err, resp)];
    [datasets] are the elements of [resp.datasets].  [None] is a thrown
    TypeError. *)
Definition getDatasets_response (h : heap) (that query : value)
    (err resp : value) (datasets : list value) : option (heap * reply) :=
  if truthy err then Some (h, Reply err None VNull resp)
  else
    token ← read h resp "nextPageToken";
    let '(h, nextQuery) := next_query h query token in
    '(h, items) ← wrap_datasets h that datasets;
    Some (h, Reply VNull (Some items) nextQuery resp).

Definition getJobs (h : heap) (this options callback : value)
    : heap * value * value * request :=
  let '(h, options, callback) := optional_query h options callback in
  (h, options, callback, makeReq_ h this "GET" [VStr "/jobs"] options VNull).

Definition getJobs_response (h : heap) (that options : value)
    (err resp : value) (jobs : list value) : option (heap * reply) :=
  if truthy err then Some (h, Reply err None VNull resp)
  else
    token ← read h resp "nextPageToken";
    let '(h, nextQuery) := next_query h options token in
    '(h, items) ← wrap_jobs h that jobs;
    Some (h, Reply VNull (Some items) nextQuery resp).

End Methods.

(** The original [query] method up to the request. *)
Definition query_original (h : heap) (that options : value) : heap * request :=
  let '(h, options) :=
    if util_is options "string" then
      let '(h, l) := alloc h {[ "query" := options ]} in (h, VObj l)
    else (h, options) in
  let '(h, options) :=
    if truthy options then (h, options)
    else let '(h, l) := alloc h ∅ in (h, VObj l) in
  let job := get h options "job" in
  let '(h, requestQuery) := extend h [props h options] in
  let h := delete_prop h requestQuery "job" in
  if truthy job then
    (h, makeReq_ h that "GET" [VStr "/queries/"; get h job "id"]
          (VObj requestQuery) VNull)
  else
    (h, makeReq_ h that "POST" [VStr "/queries"] VNull options).

(** [query] as [streamRouter.extend] leaves it on the prototype, up to
    its return: the arguments are parsed and routed.  The direct mode
    calls the original method; so does the aggregate mode, where the
    pipe makes the stream read at once, which issues the first fetch
    with the query of the call; a stream that is returned has fetched
    nothing yet. *)
Definition query (h : heap) (this : value) (args : list value)
    : heap * StreamRouter.routed * option request :=
  let '(h, parsedArguments) := StreamRouter.parseArguments_ h args in
  match StreamRouter.router_ parsedArguments with
  | StreamRouter.Direct q cb =>
      let '(h, req) := query_original h this q in
      (h, StreamRouter.Direct q cb, Some req)
  | StreamRouter.Aggregate cb stream =>
      let '(h, req) :=
        query_original h this (StreamRouter.query parsedArguments) in
      (h, StreamRouter.Aggregate cb stream, Some req)
  | StreamRouter.Streaming stream => (h, StreamRouter.Streaming stream, None)
  end.

(** [Job.prototype.getQueryResults], up to the call of
    [this.bigQuery.query]: the heap and the two arguments of that call.
    The file is in strict mode, so setting a property on a primitive
    throws ([None]). *)
Definition getQueryResults (h : heap) (this : loc) (options callback : value)
    : option (heap * list value) :=
  let '(h, options, callback) :=
    if util_is options "function" then
      let '(h, l) := alloc h ∅ in (h, VObj l, options)
    else (h, options, callback) in
  let '(h, options) :=
    if truthy options then (h, options)
    else let '(h, l) := alloc h ∅ in (h, VObj l) in
  match options with
  | VObj l => Some (set h l "job" (VObj this), [options; callback])
  | _ => None
  end.

(** What a call can throw, and what it comes to: a value, or an
    exception together with the heap at the throw. *)
Inductive thrown :=
  | TypeError
  | Error (message : string).

Inductive outcome (A : Type) :=
  | Returns (a : A)
  | Throws (h : heap) (e : thrown).

Arguments Returns {A} a.
Arguments Throws {A} h e.

(** [v.k] as a step of a computation that can throw. *)
Definition read_or_throw (h : heap) (v : value) (k : string) : outcome value :=
  match read h v k with
  | Some x => Returns x
  | None => Throws h TypeError
  end.

Section Query.

(** [Table.mergeSchemaWithRows_(schema, rows)], from
    lib/bigquery/table.js, which is not among the sources: the rows it
    builds, in a heap that may hold new objects. *)
Variable mergeSchemaWithRows_ : heap → value → value → heap * list value.

(** [responseHandler] of [query], run on [(err, resp)]; [options] is the
    variable of [query] after its opening lines.  [None] is a thrown
    TypeError. *)
Definition query_response (h : heap) (that options : value)
    (err resp : value) : option (heap * reply) :=
  if truthy err then Some (h, Reply err None VNull resp)
  else
    schema ← read h resp "schema";
    let '(h, rows) :=
      if truthy schema && truthy (get h resp "rows")
      then mergeSchemaWithRows_ h schema (get h resp "rows")
      else (h, []) in
    let '(h, nextQuery) :=
      if is_false (get h resp "jobComplete") then
        let '(h, l) := extend h [props h options] in (h, VObj l)
      else if truthy (get h resp "pageToken") then
        let '(h, l) := extend h [props h options;
                                 {[ "pageToken" := get h resp "pageToken" ]}] in
        (h, VObj l)
      else (h, VNull) in
    match nextQuery with
    | VObj l =>
        if truthy (get h nextQuery "job") then
          Some (h, Reply VNull (Some rows) nextQuery resp)
        else
          jobId ← read h (get h resp "jobReference") "jobId";
          if truthy jobId then
            let '(h, job) := Job h that jobId in
            Some (set h l "job" (VObj job), Reply VNull (Some rows) nextQuery resp)
          else Some (h, Reply VNull (Some rows) nextQuery resp)
    | _ => Some (h, Reply VNull (Some rows) nextQuery resp)
    end.

End Query.

(** [Job.prototype.getMetadata], from job.js: the request, and the
    handler of its response with the three arguments it gives to the
    callback. *)
Definition getMetadata (h : heap) (this : loc) : request :=
  makeReq_ h (get h (VObj this) "bigQuery") "GET"
    [VStr "/jobs/"; get h (VObj this) "id"] VNull VNull.

Definition getMetadata_response (h : heap) (that : loc) (err resp : value)
    : heap * (value * value * value) :=
  if truthy err then (h, (err, VNull, resp))
  else
    let h := set h that "metadata" resp in
    (h, (VNull, get h (VObj that) "metadata", resp)).

Section Datasets.

Variable dataset : heap → value → value → heap * loc.

(** [createDataset] up to the request. *)
Definition createDataset (h : heap) (this id : value) : heap * request :=
  let '(h, ref) := alloc h {[ "datasetId" := id ]} in
  let '(h, body) := alloc h {[ "datasetReference" := VObj ref ]} in
  (h, makeReq_ h this "POST" [VStr "/datasets"] VNull (VObj body)).

Definition createDataset_response (h : heap) (that id : value)
    (err resp : value) : heap * (value * value * value) :=
  if truthy err then (h, (err, VNull, resp))
  else
    let '(h, ds) := dataset h that id in
    let h := set h ds "metadata" resp in
    (h, (VNull, VObj ds, resp)).

End Datasets.

Section StartQuery.

(** [v instanceof Table]; the class is in lib/bigquery/table.js, which
    is not among the sources.  The heap holds the own properties of the
    objects and not their prototypes, so the test is a predicate of the
    value. *)
Variable instanceof_Table : value → bool.

(** [startQuery] from its first line to the end of the
    [if (options.destination)] block: the options object it goes on
    with and the [defaults] object, or what it throws.  (What follows
    builds the request body from them and sends it.) *)
Definition startQuery (h : heap) (options : value)
    : outcome (heap * value * loc) :=
  let '(h, options) :=
    if util_is options "string" then
      let '(h, l) := alloc h {[ "query" := options ]} in (h, VObj l)
    else (h, options) in
  let '(h, options) :=
    if truthy options then (h, options)
    else let '(h, l) := alloc h ∅ in (h, VObj l) in
  if negb (truthy (get h options "query")) then
    Throws h (Error "A SQL query string is required.")
  else
    let '(h, defaults) := alloc h ∅ in
    let destination := get h options "destination" in
    if truthy destination then
      if negb (instanceof_Table destination) then
        Throws h (Error "Destination must be a Table object.")
      else
        match read_or_throw h (get h destination "dataset") "id" with
        | Throws h e => Throws h e
        | Returns datasetId =>
        match read_or_throw h (get h (get h destination "dataset") "bigQuery")
                "projectId" with
        | Throws h e => Throws h e
        | Returns projectId =>
            let '(h, t) := alloc h {[ "datasetId" := datasetId;
                                      "projectId" := projectId;
                                      "tableId" := get h destination "id" ]} in
            let h := set h defaults "destinationTable" (VObj t) in
            let h := match options with
                     | VObj l => delete_prop h l "destination"
                     | _ => h
                     end in
            Returns (h, options, defaults)
        end
        end
    else Returns (h, options, defaults).

End StartQuery.

End BigQuery.

Import StreamRouter.

(** * Vocabulary of the properties *)

(** A field of an object that holds a number, and one that does not. *)
Definition numeric (o : obj) (k : string) (n : Z) : Prop :=
  o !! k = Some (VNum n).

Definition not_numeric (o : obj) (k : string) : Prop :=
  ∀ n, o !! k ≠ Some (VNum n).

(** The limit that the normalizer reads off a query. *)
Definition limit_of (h : heap) (q : value) : Z :=
  if util_is q "object" then
    if util_is (get h q "maxResults") "number" then as_num (get h q "maxResults")
    else if util_is (get h q "limitVal") "number" then as_num (get h q "limitVal")
    else if util_is (get h q "pageSize") "number" then as_num (get h q "pageSize")
    else -1
  else -1.

(** The query that the normalizer examines: the first argument, unless
    that is the callback. *)
Definition query_arg (args : list value) : value :=
  if util_is (arg args 0) "function" then VUndefined else arg args 0.

Definition callback_arg (args : list value) : value :=
  if util_is (lastArgument args) "function" then lastArgument args
  else if util_is (arg args 0) "function" then arg args 0 else VUndefined.

Definition limit_query : obj :=
  {[ "limitVal" := VNum 7; "pageSize" := VNum 3; "maxResults" := VStr "x" ]}.

Definition limit_query5 : heap := {[ 1%positive := {[ "maxResults" := VNum 5 ]} ]}.

(** What [emit] leaves alone, and the direction in which it moves the
    rest. *)
Record emit_rel (s s' : state) : Prop := {
  er_args : parsedArguments s' = parsedArguments s;
  er_reading : reading s' = reading s;
  er_in_flight : in_flight s' = in_flight s;
  er_calls : calls s' = calls s;
  er_counter : resultsToSend s' ≤ resultsToSend s;
  er_ended : streamEnded s = true → streamEnded s' = true;
  er_out : ∃ o, out s' = out s ++ o;
  er_listener : error_listener s' = error_listener s
}.

(** The events in which no fetch calls back before it returns. *)
Definition asynchronous (e : event) : bool :=
  match e with ReadingSync _ => false | _ => true end.

(** The fetch discipline: at most one fetch in flight, none before the
    first read, nothing pushed before the first read. *)
Record serial (s : state) : Prop := {
  sr_one : (in_flight s ≤ 1)%nat;
  sr_lazy : reading s = false → calls s = [] ∧ in_flight s = 0%nat;
  sr_quiet : reading s = false → pushed (out s) = []
}.

(** Sample data: a consumer that only reads, one that ends the stream at
    the [j]-th item, and a few pages. *)
Definition passive : list value → bool := λ _, false.

Definition stop_after (j : nat) : list value → bool :=
  λ received, bool_decide (length received = j).

(** Four items, the query of the call with the queries for the second
    and the third page, and an error. *)
Definition item_a : value := VObj 11%positive.
Definition item_b : value := VObj 12%positive.
Definition item_c : value := VObj 13%positive.
Definition item_d : value := VObj 14%positive.
Definition query1 : value := VObj 1%positive.
Definition query2 : value := VObj 2%positive.
Definition query3 : value := VObj 3%positive.
Definition failure : value := VObj 9%positive.

(** The parsed arguments of a call without callback whose query object
    has [maxResults: m]. *)
Definition stream_args (m : Z) : descriptor :=
  Descriptor query1 VUndefined m true.

Definition page_a : page := Page VNull [item_a] query2 VNull.
Definition page_bc : page := Page VNull [item_b; item_c] query3 VNull.
Definition page_d : page := Page VNull [item_d] VNull VNull.

(** How many of [n] items a counter that stands at [r] lets through. *)
Definition cap (r : Z) (n : nat) : nat :=
  if r <? 0 then n else Nat.min (Z.to_nat r) n.

(** The state after [k] more items were pushed and counted. *)
Definition advance (k : nat) (items : list value) (s : state) : state :=
  {| parsedArguments := parsedArguments s;
     resultsToSend := resultsToSend s - Z.of_nat k;
     streamEnded := streamEnded s; reading := reading s;
     in_flight := in_flight s; calls := calls s;
     out := out s ++ map EvPush (take k items);
     error_listener := error_listener s |}.

Definition all_items (pages : list page) : list value :=
  concat (results <$> pages).

(** A page without error whose items are all truthy. *)
Definition good_page (p : page) : bool :=
  negb (truthy (err p)) && forallb truthy (results p).

(** Pages that hang together: good pages, each but the last with a
    [nextQuery]. *)
Fixpoint chained (pages : list page) : bool :=
  match pages with
  | [] => true
  | p :: pages =>
      good_page p &&
      (match pages with [] => true | _ => truthy (nextQuery p) end) &&
      chained pages
  end.

(** What C2, as stated, says of a descriptor and a page: the whole page
    goes out, then the end. *)
Definition whole_page_emitted (consumer : list value → bool)
    (d : descriptor) (p : page) : Prop :=
  ∃ s, run consumer (runAsStream_ d) [Reading; Result p] = Some s ∧
       out s = map EvPush (results p) ++ [EvEnd].

Definition page_ab : page := Page VNull [item_a; item_b] VNull VNull.

(** The counter and the number of items pushed move together. *)
Definition balance (s : state) : Z :=
  resultsToSend s + Z.of_nat (length (pushed (out s))).

(** A page whose items are objects. *)
Definition object_page (p : page) : bool :=
  forallb (λ v, util_is v "object") (results p).

(** A good page that has a [nextQuery]. *)
Definition flowing (p : page) : bool := good_page p && truthy (nextQuery p).

(** The parsed arguments of a call with a callback whose query object
    has no limit and no flag. *)
Definition aggregate_args : descriptor :=
  Descriptor query1 (VFun 0) (-1) true.

Definition failed_fetch : page := Page failure [] VNull VNull.

(** A dataset resource whose [datasetReference] can be read, and a job
    resource whose [id] can be read. *)
Definition readable_dataset (h : heap) (d : value) : Prop :=
  ∃ l o ref, d = VObj l ∧ h !! l = Some o ∧
             o !! "datasetReference" = Some ref ∧
             ref ≠ VUndefined ∧ ref ≠ VNull.

Definition readable_job (j : value) : Prop := j ≠ VUndefined ∧ j ≠ VNull.

(** What C9 says of one response handler, given the heap before and the
    reply. *)
Definition fresh_continuation (h : heap) (q : loc) (o : obj) (token : value)
    (h' : heap) (r : BigQuery.reply) : Prop :=
  BigQuery.r_err r = VNull ∧
  (BigQuery.r_nextQuery r = VNull ↔ truthy token = false) ∧
  (truthy token = true →
     ∃ l, BigQuery.r_nextQuery r = VObj l ∧ h !! l = None ∧ l ≠ q ∧
          h' !! l = Some (<[ "pageToken" := token ]>
                            (filter (λ kv, defined kv.2) o)) ∧
          ∀ k, get h' (VObj l) k =
               if decide (k = "pageToken"%string) then token
               else get h (VObj q) k) ∧
  h ⊆ h' ∧ h' !! q = Some o.

(** A Dataset constructor for the examples: a new object that holds the
    client and the id. *)
Definition sample_dataset (h : heap) (that id : value) : heap * loc :=
  alloc h {[ "bigQuery" := that; "id" := id ]}.

(** A heap for the examples: the caller's query at 1, a response at 2,
    a dataset resource at 3 with its reference at 4, the client at 5, a
    job at 6 with its metadata at 7, a job resource at 8. *)
Definition sample_query : obj :=
  {[ "all" := VBool true; "pageToken" := VStr "t0" ]}.

Definition sample_heap : heap :=
  {[ 1%positive := sample_query;
     2%positive := {[ "nextPageToken" := VStr "t1" ]};
     3%positive := {[ "id" := VStr "p:x";
                      "datasetReference" := VObj 4%positive ]};
     4%positive := {[ "datasetId" := VStr "x" ]};
     5%positive := {[ "projectId" := VStr "p" ]};
     6%positive := {[ "bigQuery" := VObj 5%positive; "id" := VStr "j";
                      "metadata" := VObj 7%positive ]};
     7%positive := ∅;
     8%positive := {[ "id" := VStr "j2" ]} ]}.

(** The flag and the log agree: while the flag is clear no [end] has
    been logged, and nothing is pushed after a logged [end]. *)
Record end_discipline (s : state) : Prop := {
  ed_clear : streamEnded s = false → EvEnd ∉ out s;
  ed_quiet : ∀ o1 o2, out s = o1 ++ EvEnd :: o2 → pushed o2 = []
}.

(** The stream was ended before anything was read. *)
Record ended_early (s : state) : Prop := {
  ee_ended : streamEnded s = true;
  ee_nothing : pushed (out s) = [];
  ee_reading : reading s = false;
  ee_calls : calls s = [];
  ee_idle : in_flight s = 0%nat
}.

(** A value that is an object of the heap. *)
Definition known_object (h : heap) (v : value) : Prop :=
  ∃ l, v = VObj l ∧ is_Some (h !! l).

(** A Job object for a job resource: made for the client [that], with
    the [id] of the resource, and the resource itself as [metadata]. *)
Definition job_for (h h' : heap) (that : value) (j item : value) : Prop :=
  ∃ l, item = VObj l ∧ h !! l = None ∧
       get h' item "bigQuery" = that ∧
       get h' item "id" = get h j "id" ∧
       get h' item "metadata" = j.

(** Null or undefined. *)
Definition nullish (v : value) : Prop := v = VUndefined ∨ v = VNull.

(** A value that is not a dangling reference: if it is an object, the
    object is in the heap. *)
Definition grounded (h : heap) (v : value) : Prop :=
  ∀ l, v = VObj l → is_Some (h !! l).

(** The [nextQuery] of the response handler of [query], for options at
    [q] in the heap [h] before and the heap [h'] after: null when the
    job is complete and there is no page token; otherwise a new object
    that reads like the options, with the page token of the response
    when the job is complete, and with a job: the one of the options,
    or else a new Job for the job id of the response. *)
Definition query_continuation (h h' : heap) (that : value) (q : loc)
    (resp nq : value) : Prop :=
  let jc := get h resp "jobComplete" in
  let pt := get h resp "pageToken" in
  let job := get h (VObj q) "job" in
  let jobId := get h (get h resp "jobReference") "jobId" in
  if negb (is_false jc) && negb (truthy pt) then nq = VNull
  else
    ∃ l, nq = VObj l ∧ h !! l = None ∧ is_Some (h' !! l) ∧
      (∀ k, k ≠ "job"%string → k ≠ "pageToken"%string →
            get h' nq k = get h (VObj q) k) ∧
      get h' nq "pageToken" =
        (if is_false jc then get h (VObj q) "pageToken" else pt) ∧
      (if truthy job then get h' nq "job" = job
       else if truthy jobId then
         ∃ j, get h' nq "job" = VObj j ∧ h !! j = None ∧
              get h' (VObj j) "id" = jobId ∧ get h' (VObj j) "bigQuery" = that
       else get h' nq "job" = job).

(** For the examples: a row builder that makes one new row object, and
    the sample heap with, at 2, the response to a query whose job (named
    at 4) still runs. *)
Definition sample_merge (h : heap) (schema rows : value) : heap * list value :=
  let '(h, l) := alloc h ∅ in (h, [VObj l]).

Definition running_heap : heap :=
  <[4%positive := {[ "jobId" := VStr "j9" ]}]>
    (<[2%positive := {[ "jobComplete" := VBool false;
                         "jobReference" := VObj 4%positive ]}]> sample_heap).

(** The argument of [startQuery] names no query: an empty string, an
    object whose [query] is not truthy, or any other value. *)
Definition missing_query (h : heap) (options : value) : Prop :=
  match options with
  | VStr s => s = ""%string
  | VObj _ => truthy (get h options "query") = false
  | _ => True
  end.

(** For the examples: options at 1 with a destination table at 2, in
    the dataset at 3 of the client at 4; the table class has the object
    at 2 as its one instance. *)
Definition table_heap : heap :=
  {[ 1%positive := {[ "query" := VStr "SELECT 1"; "destination" := VObj 2%positive ]};
     2%positive := {[ "id" := VStr "t"; "dataset" := VObj 3%positive ]};
     3%positive := {[ "id" := VStr "d"; "bigQuery" := VObj 4%positive ]};
     4%positive := {[ "projectId" := VStr "p" ]} ]}.

Definition sample_is_table (v : value) : bool := bool_decide (v = VObj 2%positive).

(** The arguments of a list method's callback as the page that
    [onResultSet] is called with; the items are [null] only beside an
    error, where [onResultSet] does not look at them. *)
Definition page_of (r : BigQuery.reply) : page :=
  Page (BigQuery.r_err r) (default [] (BigQuery.r_items r))
       (BigQuery.r_nextQuery r) (BigQuery.r_resp r).

(** The listener is heeded at once: no item was pushed after one at
    which the listener ended the stream, and when the listener has ended
    the stream at the last item pushed the flag is set. *)
Record heeded (consumer : list value → bool) (s : state) : Prop := {
  hd_before : ∀ k, (0 < k < length (pushed (out s)))%nat →
                   consumer (take k (pushed (out s))) = false;
  hd_last : pushed (out s) ≠ [] → consumer (pushed (out s)) = true →
            streamEnded s = true
}.

(** What C3, as stated, says of a consumer, a descriptor and the
    pages: as many items go out as the limit says. *)
Definition cap_reached (consumer : list value → bool) (d : descriptor)
    (pages : list page) : Prop :=
  ∃ s1, step consumer (runAsStream_ d) Reading = Some s1 ∧
        Z.of_nat (length (pushed (out (deliver consumer s1 pages)))) = maxResults d.

(** * Properties *)

(** ** The call normalizer *)

Lemma util_is_number v : util_is v "number" = true ↔ ∃ n, v = VNum n.
Proof.
  unfold util_is. rewrite bool_decide_eq_true.
  destruct v; simpl; split; intros H; try discriminate; eauto;
    destruct H as [? H]; discriminate.
Qed.

Lemma util_is_number_false v :
  util_is v "number" = false ↔ ∀ n, v ≠ VNum n.
Proof.
  split.
  - intros H n ->. discriminate.
  - intros H. destruct (util_is v "number") eqn:E; [|done].
    apply util_is_number in E as [n ->]. by destruct (H n).
Qed.

Lemma get_object h l o k :
  h !! l = Some o → get h (VObj l) k = default VUndefined (o !! k).
Proof. intros H. simpl. by rewrite H. Qed.

Lemma get_numeric h l o k n :
  h !! l = Some o → numeric o k n → get h (VObj l) k = VNum n.
Proof. intros H Hn. rewrite (get_object _ _ _ _ H). by rewrite Hn. Qed.

Lemma get_not_numeric h l o k :
  h !! l = Some o → not_numeric o k → util_is (get h (VObj l) k) "number" = false.
Proof.
  intros H Hn. rewrite (get_object _ _ _ _ H). apply util_is_number_false.
  intros n E. destruct (o !! k) as [v|] eqn:Hk; simpl in E; [|done].
  subst v. by destruct (Hn n).
Qed.

Lemma parse_maxResults h args :
  maxResults (parseArguments_ h args).2 = limit_of h (query_arg args).
Proof.
  unfold parseArguments_, limit_of, query_arg.
  destruct (truthy _); [done|]. by destruct (alloc h ∅).
Qed.

Lemma parse_callback h args :
  callback (parseArguments_ h args).2 = callback_arg args.
Proof.
  unfold parseArguments_, callback_arg.
  destruct (truthy (if util_is (arg args 0) "function" then _ else _)).
  - simpl. by repeat case_match.
  - destruct (alloc h ∅). simpl. by repeat case_match.
Qed.

Lemma parse_query_truthy h args :
  truthy (query_arg args) = true →
  parseArguments_ h args =
    (h, Descriptor (query_arg args) (callback_arg args)
          (limit_of h (query_arg args))
          (autoPaginate (parseArguments_ h args).2)).
Proof.
  intros Ht. pose proof (parse_callback h args) as Hc.
  pose proof (parse_maxResults h args) as Hm.
  unfold parseArguments_ in *. fold (query_arg args) in *.
  rewrite Ht in *. simpl in *. by rewrite Hc, Hm.
Qed.

(** The sample descriptors are what the normalizer makes of such
    calls. *)
Lemma stream_args_parsed m :
  (parseArguments_ {[ 1%positive := {[ "maxResults" := VNum m ]} ]} [query1]).2
  = stream_args m.
Proof. reflexivity. Qed.

Lemma aggregate_args_parsed :
  (parseArguments_ {[ 1%positive := ∅ ]} [query1; VFun 0]).2 = aggregate_args.
Proof. reflexivity. Qed.

(** C6: for a query object, [maxResults] is the first numeric field
    among maxResults, limitVal and pageSize, in this order, whatever the
    later ones hold; with none of the three numeric it stays at -1. *)
Theorem limit_field_precedence (h : heap) (l : loc) (o : obj) (rest : list value) :
  h !! l = Some o →
  let d := (parseArguments_ h (VObj l :: rest)).2 in
  (∀ n, numeric o "maxResults" n → maxResults d = n) ∧
  (∀ n, not_numeric o "maxResults" → numeric o "limitVal" n →
        maxResults d = n) ∧
  (∀ n, not_numeric o "maxResults" → not_numeric o "limitVal" →
        numeric o "pageSize" n → maxResults d = n) ∧
  (not_numeric o "maxResults" → not_numeric o "limitVal" →
   not_numeric o "pageSize" → maxResults d = -1).
Proof.
  intros Hl d. subst d. rewrite parse_maxResults.
  unfold query_arg, arg. simpl. unfold limit_of.
  change (util_is (VObj l) "object") with true. cbv iota.
  repeat split.
  - intros n Hn. by rewrite (get_numeric _ _ _ _ _ Hl Hn).
  - intros n H1 Hn. rewrite (get_not_numeric _ _ _ _ Hl H1).
    by rewrite (get_numeric _ _ _ _ _ Hl Hn).
  - intros n H1 H2 Hn. rewrite (get_not_numeric _ _ _ _ Hl H1).
    rewrite (get_not_numeric _ _ _ _ Hl H2).
    by rewrite (get_numeric _ _ _ _ _ Hl Hn).
  - intros H1 H2 H3. rewrite (get_not_numeric _ _ _ _ Hl H1).
    rewrite (get_not_numeric _ _ _ _ Hl H2).
    by rewrite (get_not_numeric _ _ _ _ Hl H3).
Qed.

Lemma limit_field_precedence_witness :
  ({[ 1%positive := limit_query ]} : heap) !! 1%positive = Some limit_query ∧
  maxResults (parseArguments_ {[ 1%positive := limit_query ]} [VObj 1%positive; VFun 0]).2 = 7.
Proof.
  split; [reflexivity|].
  refine (proj1 (proj2 (limit_field_precedence
    {[ 1%positive := limit_query ]} 1%positive limit_query [VFun 0] _)) 7 _ _).
  - reflexivity.
  - intros n. vm_compute. intros [=].
  - vm_compute. reflexivity.
Defined.

Lemma callback_arg_cases args :
  callback_arg args = VUndefined ∨ ∃ f, callback_arg args = VFun f.
Proof.
  unfold callback_arg.
  destruct (util_is (lastArgument args) "function") eqn:E1.
  { right. destruct (lastArgument args); try discriminate; eauto. }
  destruct (util_is (arg args 0) "function") eqn:E2; [|by left].
  right. destruct (arg args 0); try discriminate; eauto.
Qed.

Lemma util_is_object_truthy v : util_is v "object" = true → truthy v = true.
Proof. by destruct v. Qed.

Lemma is_false_spec v : is_false v = true ↔ v = VBool false.
Proof. destruct v as [| |[]| | | |]; simpl; split; congruence. Qed.

Lemma parse_autoPaginate h args :
  autoPaginate (parseArguments_ h args).2 =
    negb (util_is (query_arg args) "object" &&
          truthy (callback_arg args) &&
          (negb (limit_of h (query_arg args) =? -1) ||
           is_false (get h (query_arg args) "autoPaginate") ||
           is_false (get h (query_arg args) "autoPaginateVal"))).
Proof.
  pose proof (parse_callback h args) as Hc.
  unfold parseArguments_, limit_of in *. fold (query_arg args) in *.
  destruct (util_is (query_arg args) "object") eqn:Eo.
  - rewrite (util_is_object_truthy _ Eo) in *. simpl in *.
    rewrite <- Hc. by destruct (truthy _ && _).
  - destruct (truthy (query_arg args)); [done|]. by destruct (alloc h ∅).
Qed.

Lemma limit_found h q :
  limit_of h q ≠ -1 →
  ∃ k n, k ∈ ["maxResults"; "limitVal"; "pageSize"]%string ∧ get h q k = VNum n.
Proof.
  unfold limit_of. intros H.
  destruct (util_is q "object"); [|done].
  destruct (util_is (get h q "maxResults") "number") eqn:E1.
  { apply util_is_number in E1 as [n E1]. exists "maxResults"%string, n.
    split; [set_solver|done]. }
  destruct (util_is (get h q "limitVal") "number") eqn:E2.
  { apply util_is_number in E2 as [n E2]. exists "limitVal"%string, n.
    split; [set_solver|done]. }
  destruct (util_is (get h q "pageSize") "number") eqn:E3; [|done].
  apply util_is_number in E3 as [n E3]. exists "pageSize"%string, n.
  split; [set_solver|done].
Qed.

(** The query of the descriptor is the query argument when that is an
    object. *)
Lemma parse_query_object h args :
  util_is (query_arg args) "object" = true →
  (parseArguments_ h args).1 = h ∧
  query (parseArguments_ h args).2 = query_arg args.
Proof.
  intros Ho. by rewrite (parse_query_truthy h args (util_is_object_truthy _ Ho)).
Qed.

(** C5: [autoPaginate] is false exactly when there is a callback and the
    query object gave a limit other than -1 or says [autoPaginate ===
    false] or [autoPaginateVal === false]; so it stays true unless a
    callback is present and a numeric limit field was found or one of
    the two flags is false.  With [autoPaginate] false the router calls
    the page fetch once, with the query and the user's own callback,
    which so receives the raw page; no other fetch follows.
    [({maxResults: 5}, callback)] is such a call. *)
Theorem autoPaginate_forced_false (h : heap) (args : list value) :
  let q := query_arg args in
  let d := (parseArguments_ h args).2 in
  (autoPaginate d = false ↔
     truthy (callback d) = true ∧ util_is q "object" = true ∧
     (maxResults d ≠ -1 ∨ get h q "autoPaginate" = VBool false ∨
      get h q "autoPaginateVal" = VBool false)) ∧
  (autoPaginate d = false →
     (∃ f, callback d = VFun f) ∧ query d = q ∧
     ((∃ k n, k ∈ ["maxResults"; "limitVal"; "pageSize"]%string ∧
              get h q k = VNum n) ∨
      get h q "autoPaginate" = VBool false ∨
      get h q "autoPaginateVal" = VBool false) ∧
     router_ d = Direct (query d) (callback d) ∧
     ∀ p pages, fetches (router_ d) (p :: pages) = [query d] ∧
                callbacks (router_ d) (p :: pages) = [CbPage p]) ∧
  (let d5 := (parseArguments_ limit_query5 [VObj 1%positive; VFun 0]).2 in
   d5 = Descriptor (VObj 1%positive) (VFun 0) 5 false ∧
   router_ d5 = Direct (VObj 1%positive) (VFun 0)).
Proof.
  intros q d.
  assert (Hiff : autoPaginate d = false ↔
     truthy (callback d) = true ∧ util_is q "object" = true ∧
     (maxResults d ≠ -1 ∨ get h q "autoPaginate" = VBool false ∨
      get h q "autoPaginateVal" = VBool false)).
  { subst d q. rewrite parse_autoPaginate, parse_callback, parse_maxResults.
    rewrite negb_false_iff, !andb_true_iff, !orb_true_iff, negb_true_iff.
    rewrite Z.eqb_neq, !is_false_spec. tauto. }
  split; [exact Hiff|]. split.
  - intros Hf. destruct (proj1 Hiff Hf) as (Hc & Ho & Hl).
    assert (Hfun : ∃ f, callback d = VFun f).
    { subst d. rewrite parse_callback in *.
      destruct (callback_arg_cases args) as [E|E]; [|done].
      rewrite E in Hc. discriminate. }
    assert (Hr : router_ d = Direct (query d) (callback d)).
    { unfold router_. by rewrite Hc, Hf. }
    split; [done|]. split; [by apply parse_query_object|].
    split.
    { destruct Hl as [Hl|Hl]; [left|by right].
      subst d. rewrite parse_maxResults in Hl. by apply limit_found. }
    split; [done|]. intros p pages. by rewrite Hr.
  - by vm_compute.
Qed.

Lemma autoPaginate_forced_false_witness :
  let d := (parseArguments_ limit_query5 [VObj 1%positive; VFun 0]).2 in
  autoPaginate d = false ∧
  ∀ p pages, fetches (router_ d) (p :: pages) = [query d] ∧
             callbacks (router_ d) (p :: pages) = [CbPage p].
Proof.
  intros d.
  assert (H : autoPaginate d = false) by (by vm_compute).
  split; [exact H|].
  pose proof (proj1 (proj2 (autoPaginate_forced_false limit_query5
    [VObj 1%positive; VFun 0])) H) as (_ & _ & _ & _ & Hp).
  exact Hp.
Defined.

(** ** The stream driver: what every step preserves *)

Lemma pushed_app o1 o2 : pushed (o1 ++ o2) = pushed o1 ++ pushed o2.
Proof. unfold pushed. apply omap_app. Qed.

Lemma pushed_map_push items : pushed (map EvPush items) = items.
Proof. induction items as [|v items IH]; simpl; [done|]. by f_equal. Qed.

Lemma emit_rel_refl s : emit_rel s s.
Proof. split; try done. exists []. by rewrite app_nil_r. Qed.

Lemma emit_rel_trans s1 s2 s3 : emit_rel s1 s2 → emit_rel s2 s3 → emit_rel s1 s3.
Proof.
  intros [] []. split; try congruence; try lia; try tauto.
  destruct er_out0 as [o1 E1], er_out1 as [o2 E2]. exists (o1 ++ o2).
  by rewrite E2, E1, app_assoc.
Qed.

Lemma stream_end_rel s : emit_rel s (stream_end s).
Proof. split; simpl; try done. by exists [EvEnd]. Qed.

Section Handling.

Variable consumer : list value → bool.

Lemma push_rel v s : emit_rel s (decrement (push consumer v s)).
Proof.
  unfold push. destruct (consumer _); split; simpl; try done; try lia.
  - exists [EvPush v; EvEnd]. by rewrite <- app_assoc.
  - by exists [EvPush v].
Qed.

Lemma emit_frame items s : emit_rel s (emit consumer items s).
Proof.
  revert s. induction items as [|v items IH]; intros s; simpl.
  - apply emit_rel_refl.
  - destruct (_ && _); [|apply emit_rel_refl].
    eapply emit_rel_trans; [apply push_rel|apply IH].
Qed.


Lemma onResultSet_in_flight p s :
  (in_flight (onResultSet consumer p s) ≤ S (in_flight s))%nat ∧
  reading (onResultSet consumer p s) = reading s.
Proof.
  unfold onResultSet. destruct (truthy (err p)).
  { simpl. destruct (error_listener s); simpl; split; (lia || done). }
  pose proof (emit_frame (results p) s) as [].
  repeat case_match; simpl; split; try lia; congruence.
Qed.

Lemma onResultSet_args p s :
  parsedArguments (onResultSet consumer p s) = parsedArguments s ∧
  error_listener (onResultSet consumer p s) = error_listener s.
Proof.
  unfold onResultSet. destruct (truthy (err p)).
  { simpl. by destruct (error_listener s) eqn:E; simpl; rewrite ?E. }
  pose proof (emit_frame (results p) s) as [].
  repeat case_match; simpl; split; congruence.
Qed.

Lemma onResultSet_counter p s :
  resultsToSend (onResultSet consumer p s) ≤ resultsToSend s ∧
  (streamEnded s = true → streamEnded (onResultSet consumer p s) = true).
Proof.
  unfold onResultSet. destruct (truthy (err p)).
  { simpl. destruct (error_listener s); simpl; split; (lia || done). }
  pose proof (emit_frame (results p) s) as [].
  repeat case_match; simpl; split; try lia; try done; auto;
    intros Hs; by destruct (er_ended0 Hs).
Qed.

(** The handler of a page either issues no fetch, or issues the one for
    the page's [nextQuery]. *)
Lemma onResultSet_calls p s :
  let s' := onResultSet consumer p s in
  (calls s' = calls s ∧ in_flight s' = in_flight s) ∨
  (calls s' = calls s ++ [nextQuery p] ∧ in_flight s' = S (in_flight s)).
Proof.
  unfold onResultSet. destruct (truthy (err p)).
  { left. simpl. by destruct (error_listener s). }
  pose proof (emit_frame (results p) s) as [].
  repeat case_match; simpl; [left|left|right|left]; split; congruence.
Qed.

(** The listener only ever ends the stream. *)
Lemma hand_over_rel buffered : ∀ seen s,
  emit_rel s (hand_over consumer seen buffered s) ∧
  pushed (out (hand_over consumer seen buffered s)) = pushed (out s).
Proof.
  induction buffered as [|v buffered IH]; intros seen s; simpl.
  - split; [apply emit_rel_refl|done].
  - destruct (consumer (seen ++ [v])); [|apply IH].
    destruct (IH (seen ++ [v]) (stream_end s)) as [Hr Hp]. split.
    + eapply emit_rel_trans; [apply stream_end_rel|exact Hr].
    + rewrite Hp. simpl. by rewrite pushed_app, app_nil_r.
Qed.

(** A run of results that call back one after the other. *)
Lemma deliver_run pages : ∀ s,
  ∃ k, (k ≤ length pages)%nat ∧
       run consumer s (Result <$> take k pages) = Some (deliver consumer s pages).
Proof.
  induction pages as [|p pages IH]; intros s; simpl.
  - by exists 0%nat.
  - destruct (result consumer p s) as [s1|] eqn:E.
    + destruct (IH s1) as (k & Hk & Hr). exists (S k). split; [lia|].
      simpl. by rewrite E.
    + exists 0%nat. split; [lia|done].
Qed.

Lemma hand_over_run buffered : ∀ seen s,
  ∃ n, run consumer s (replicate n ConsumerEnd)
       = Some (hand_over consumer seen buffered s).
Proof.
  induction buffered as [|v buffered IH]; intros seen s; simpl.
  - by exists 0%nat.
  - destruct (consumer (seen ++ [v])); [|apply IH].
    destruct (IH (seen ++ [v]) (stream_end s)) as [n Hn]. by exists (S n).
Qed.

End Handling.

(** A read in which the fetches call back at once does what these
    events do one after the other: the read, the results with no
    listener running, and then the calls of [end()] that the listener
    makes when it is handed what was buffered. *)
Lemma step_sync c s pages s' :
  step c s (ReadingSync pages) = Some s' →
  s' = s ∨
  ∃ k n s1 s2,
    (k ≤ length pages)%nat ∧
    reading s = false ∧ streamEnded s = false ∧
    step c s Reading = Some s1 ∧
    run buffering s1 (Result <$> take k pages) = Some s2 ∧
    run c s2 (replicate n ConsumerEnd) = Some s'.
Proof.
  simpl. destruct (reading s) eqn:Er; [intros [= <-]; by left|].
  destruct (streamEnded s) eqn:Ee; [intros [= <-]; by left|].
  simpl. intros [= <-]. right.
  set (s1 := originalMethod (query (parsedArguments s)) (start_reading s)).
  destruct (deliver_run buffering pages s1) as (k & Hk & Hr).
  destruct (hand_over_run c
    (drop (length (pushed (out s))) (pushed (out (deliver buffering s1 pages))))
    (pushed (out s)) (deliver buffering s1 pages)) as [n Hn].
  by exists k, n, s1, (deliver buffering s1 pages).
Qed.

Lemma run_closure (R : state → state → Prop) :
  (∀ s, R s s) → (∀ s1 s2 s3, R s1 s2 → R s2 s3 → R s1 s3) →
  (∀ c s e s', step c s e = Some s' → R s s') →
  ∀ c es s s', run c s es = Some s' → R s s'.
Proof.
  intros Hrefl Htrans Hstep c es.
  induction es as [|e es IH]; intros s s'; simpl.
  - intros [= <-]. apply Hrefl.
  - destruct (step c s e) as [s1|] eqn:E; simpl; [|done].
    intros H. eapply Htrans; [by eapply Hstep|by apply IH].
Qed.

(** What holds of the steps in which fetches call back later, for every
    consumer, and composes, holds of every step. *)
Lemma step_closure (R : state → state → Prop) :
  (∀ s, R s s) → (∀ s1 s2 s3, R s1 s2 → R s2 s3 → R s1 s3) →
  (∀ c s e s', asynchronous e = true → step c s e = Some s' → R s s') →
  ∀ c s e s', step c s e = Some s' → R s s'.
Proof.
  intros Hrefl Htrans Hstep.
  assert (∀ c es s s', forallb asynchronous es = true →
            run c s es = Some s' → R s s') as Hrun.
  { intros c es. induction es as [|e es IH]; intros s s'; simpl.
    - intros _ [= <-]. apply Hrefl.
    - intros [He Hes]%andb_true_iff.
      destruct (step c s e) as [s1|] eqn:E; simpl; [|done].
      intros H. eapply Htrans; [by eapply Hstep|by apply IH]. }
  intros c s e s' Hs. destruct (asynchronous e) eqn:Ea; [by eapply Hstep|].
  destruct e as [|p| |pages|]; try discriminate.
  destruct (step_sync _ _ _ _ Hs)
    as [->|(k & n & s1 & s2 & _ & _ & _ & H1 & H2 & H3)]; [apply Hrefl|].
  eapply Htrans; [by eapply (Hstep c s Reading)|].
  eapply Htrans; [eapply (Hrun buffering); [|exact H2]|eapply (Hrun c); [|exact H3]].
  - clear. induction (take k pages) as [|? ? IH]; [done|exact IH].
  - clear. induction n as [|n IH]; [done|exact IH].
Qed.

Ltac asynchronous_cases e Ha :=
  destruct e as [|?p| |?pages|]; try discriminate Ha; clear Ha.

Lemma step_counter c s e s' :
  step c s e = Some s' → resultsToSend s' ≤ resultsToSend s.
Proof.
  revert c s e s'.
  apply (step_closure (λ s s', resultsToSend s' ≤ resultsToSend s)); [lia..|].
  intros c s e s' Ha. asynchronous_cases e Ha; simpl.
  - destruct (_ || _); intros [= <-]; simpl; lia.
  - unfold result. destruct (in_flight s); [done|]. intros [= <-].
    by destruct (onResultSet_counter c p (called_back s)).
  - intros [= <-]. simpl. lia.
  - intros [= <-]. simpl. lia.
Qed.

Lemma step_ended c s e s' :
  step c s e = Some s' → streamEnded s = true → streamEnded s' = true.
Proof.
  revert c s e s'.
  apply (step_closure (λ s s', streamEnded s = true → streamEnded s' = true));
    [tauto..|].
  intros c s e s' Ha. asynchronous_cases e Ha; simpl.
  - destruct (_ || _); by intros [= <-].
  - unfold result. destruct (in_flight s); [done|]. intros [= <-].
    by destruct (onResultSet_counter c p (called_back s)).
  - by intros [= <-].
  - by intros [= <-].
Qed.

Lemma step_args c s e s' :
  step c s e = Some s' → parsedArguments s' = parsedArguments s.
Proof.
  revert c s e s'.
  apply (step_closure (λ s s', parsedArguments s' = parsedArguments s));
    [congruence..|].
  intros c s e s' Ha. asynchronous_cases e Ha; simpl.
  - destruct (_ || _); by intros [= <-].
  - unfold result. destruct (in_flight s); [done|]. intros [= <-].
    by destruct (onResultSet_args c p (called_back s)).
  - by intros [= <-].
  - by intros [= <-].
Qed.

Lemma serial_init d : serial (runAsStream_ d).
Proof. split; simpl; auto. Qed.

Lemma step_serial c s e s' :
  step c s e = Some s' → serial s → serial s'.
Proof.
  revert c s e s'.
  apply (step_closure (λ s s', serial s → serial s')); [tauto..|].
  intros c s e s' Ha Hs [H1 H2 H3]. asynchronous_cases e Ha; simpl in Hs.
  - destruct (reading s) eqn:Er; simpl in Hs.
    { injection Hs as <-. split; [done|congruence|congruence]. }
    destruct (H2 eq_refl) as [Hc Hi].
    destruct (streamEnded s); injection Hs as <-.
    { split; [done|intros _; by apply H2|intros _; by apply H3]. }
    split; simpl; [lia|done|done].
  - unfold result in Hs.
    destruct (in_flight s) as [|n] eqn:Ei; [done|]. injection Hs as <-.
    assert (reading s = true) as Hr.
    { destruct (reading s) eqn:Er; [done|]. destruct (H2 eq_refl). lia. }
    pose proof (onResultSet_in_flight c p (called_back s)) as [Hle Hrd].
    simpl in *. rewrite Ei in Hle. simpl in Hle.
    split; [lia| |]; rewrite Hrd, Hr; done.
  - injection Hs as <-. split; simpl; [done|done|].
    intros Hr. rewrite pushed_app, (H3 Hr). done.
  - injection Hs as <-. by split.
Qed.

Lemma run_counter c s es s' :
  run c s es = Some s' → resultsToSend s' ≤ resultsToSend s.
Proof.
  revert c es s s'.
  apply (run_closure (λ s s', resultsToSend s' ≤ resultsToSend s)); [lia..|].
  apply step_counter.
Qed.


Lemma run_serial c s es s' :
  run c s es = Some s' → serial s → serial s'.
Proof.
  revert c es s s'.
  apply (run_closure (λ s s', serial s → serial s')); [tauto..|].
  apply step_serial.
Qed.

Lemma run_args c s es s' :
  run c s es = Some s' → parsedArguments s' = parsedArguments s.
Proof.
  revert c es s s'.
  apply (run_closure (λ s s', parsedArguments s' = parsedArguments s));
    [congruence..|].
  apply step_args.
Qed.

(** ** One fetch at a time *)

Section Serial.

Variable consumer : list value → bool.

Lemma run_not_reading s es s' :
  run consumer s es = Some s' →
  Reading ∉ es → (∀ pages, ReadingSync pages ∉ es) →
  reading s' = reading s.
Proof.
  revert s. induction es as [|e es IH]; intros s; simpl.
  - by intros [= <-].
  - destruct (step consumer s e) as [s1|] eqn:E; simpl; [|done].
    intros H Hn Hm. rewrite (IH _ H) by set_solver.
    destruct e as [|p| |pages|]; simpl in E.
    + set_solver.
    + unfold result in E. destruct (in_flight s); [done|]. injection E as <-.
      by destruct (onResultSet_in_flight consumer p (called_back s)) as [_ ->].
    + by injection E as <-.
    + destruct (Hm pages). set_solver.
    + by injection E as <-.
Qed.

Lemma deliver_idle c s pages : in_flight s = 0%nat → deliver c s pages = s.
Proof. intros H. destruct pages; simpl; [done|]. unfold result. by rewrite H. Qed.

(** Results that call back one after the other: each fetch but the
    first is the one that the handler of the result before it issued. *)
Lemma deliver_calls c pages : ∀ s,
  (in_flight s ≤ 1)%nat →
  ∃ k, (k ≤ length pages)%nat ∧
       calls (deliver c s pages) = calls s ++ (nextQuery <$> take k pages) ∧
       (in_flight (deliver c s pages) ≤ 1)%nat.
Proof.
  induction pages as [|p pages IH]; intros s Hi.
  { exists 0%nat. simpl. by rewrite app_nil_r. }
  simpl. unfold result. destruct (in_flight s) as [|n] eqn:Ei.
  { exists 0%nat. simpl. rewrite app_nil_r, Ei. split; [lia|]. split; [done|lia]. }
  assert (n = 0%nat) as -> by lia.
  destruct (onResultSet_calls c p (called_back s)) as [[Hc Hf]|[Hc Hf]];
    simpl in Hc, Hf; rewrite Ei in Hf; simpl in Hf.
  - rewrite deliver_idle by done. exists 0%nat. simpl.
    rewrite app_nil_r, Hf. split; [lia|]. split; [done|lia].
  - destruct (IH (onResultSet c p (called_back s))) as (k & Hk & Hcs & Hin); [lia|].
    exists (S k). split; [lia|]. split; [|done].
    rewrite Hcs, Hc. simpl. by rewrite <- app_assoc.
Qed.

(** C4: along every run of a stream at most one page fetch is in
    flight; as long as the consumer has not started to read no fetch has
    been issued; and a fetch is only ever issued by the first read, with
    the query of the call, or by the handler of the result of the
    previous fetch, which by then is the only one there was, with that
    result's [nextQuery].  This holds as well of a read in which the
    fetches call back at once: the fetches issued in it are the one for
    the query of the call and then, one for one, those for the
    [nextQuery] of the page that came back before. *)
Theorem one_fetch_at_a_time (d : descriptor) (es : list event) (s : state) :
  run consumer (runAsStream_ d) es = Some s →
  (in_flight s ≤ 1)%nat ∧
  (Reading ∉ es → (∀ pages, ReadingSync pages ∉ es) →
     calls s = [] ∧ in_flight s = 0%nat) ∧
  (∀ e s', step consumer s e = Some s' → calls s' ≠ calls s →
     (e = Reading ∧ reading s = false ∧ calls s = [] ∧
      calls s' = [query d] ∧ in_flight s' = 1%nat) ∨
     (∃ p, e = Result p ∧ in_flight s = 1%nat ∧
           calls s' = calls s ++ [nextQuery p] ∧ in_flight s' = 1%nat) ∨
     (∃ pages k, e = ReadingSync pages ∧ reading s = false ∧ calls s = [] ∧
                 (k ≤ length pages)%nat ∧
                 calls s' = query d :: (nextQuery <$> take k pages) ∧
                 (in_flight s' ≤ 1)%nat)).
Proof.
  intros Hrun.
  pose proof (run_serial consumer _ _ _ Hrun (serial_init d)) as [H1 H2 H3].
  pose proof (run_args _ _ _ _ Hrun) as Hd. simpl in Hd.
  split; [done|]. split.
  - intros Hn Hm. apply H2. by rewrite (run_not_reading _ _ _ Hrun Hn Hm).
  - intros e s' Hs Hne. destruct e as [|p| |pages|]; simpl in Hs.
    + left. destruct (reading s) eqn:Er; simpl in Hs; [by injection Hs as <-|].
      destruct (streamEnded s); injection Hs as <-; [done|].
      destruct (H2 eq_refl) as [Hc Hi]. simpl. rewrite Hc, Hd, Hi. done.
    + right. left. exists p. unfold result in Hs.
      destruct (in_flight s) as [|n] eqn:Ei; [done|].
      injection Hs as <-. assert (n = 0%nat) as -> by lia.
      destruct (onResultSet_calls consumer p (called_back s)) as [[Hc Hi]|[Hc Hi]];
        simpl in *; [done|]. rewrite Ei in Hi. done.
    + injection Hs as <-. done.
    + right. right.
      destruct (reading s) eqn:Er; simpl in Hs; [by injection Hs as <-|].
      destruct (streamEnded s); injection Hs as <-; [done|].
      destruct (H2 eq_refl) as [Hc Hi].
      set (s1 := originalMethod (query (parsedArguments s)) (start_reading s)) in *.
      destruct (deliver_calls buffering pages s1) as (k & Hk & Hcs & Hin).
      { simpl. lia. }
      destruct (hand_over_rel consumer
        (drop (length (pushed (out s))) (pushed (out (deliver buffering s1 pages))))
        (pushed (out s)) (deliver buffering s1 pages)) as [[] _].
      exists pages, k. split; [done|]. split; [done|]. split; [done|].
      split; [done|]. split; [|lia].
      rewrite er_calls0, Hcs. simpl. by rewrite Hc, Hd.
    + injection Hs as <-. done.
Qed.



(** The listener is heeded at once: what changes neither the items
    pushed nor clears the flag keeps it so. *)
Lemma heeded_mono s s' :
  pushed (out s') = pushed (out s) →
  (streamEnded s = true → streamEnded s' = true) →
  heeded consumer s → heeded consumer s'.
Proof. intros Hp He [H1 H2]. split; rewrite Hp; auto. Qed.

Lemma heeded_init d : heeded consumer (runAsStream_ d).
Proof. split; simpl; [intros; lia|done]. Qed.

Lemma push_heeded v s :
  streamEnded s = false → heeded consumer s →
  heeded consumer (decrement (push consumer v s)).
Proof.
  intros He [H1 H2].
  assert (∀ k, (0 < k < length (pushed (out s) ++ [v]))%nat →
               consumer (take k (pushed (out s) ++ [v])) = false) as Hb.
  { intros k Hk. rewrite length_app in Hk. simpl in Hk.
    destruct (decide (k < length (pushed (out s)))%nat) as [Hlt|Hge].
    - rewrite take_app_le by lia. apply H1. lia.
    - assert (k = length (pushed (out s))) as -> by lia.
      rewrite take_app_length.
      destruct (consumer (pushed (out s))) eqn:Ec; [|done].
      rewrite H2 in He; [done| |done]. intros E. rewrite E in Hk. simpl in Hk. lia. }
  unfold push. simpl.
  destruct (consumer (pushed (out s ++ [EvPush v]))) eqn:Ec; split; simpl;
    rewrite ?pushed_app in *; simpl in *; rewrite ?app_nil_r; try done.
  intros _ E. congruence.
Qed.

Lemma emit_heeded items : ∀ s,
  heeded consumer s → heeded consumer (emit consumer items s).
Proof.
  induction items as [|v items IH]; intros s Hs; simpl; [done|].
  destruct (truthy v && negb (resultsToSend s =? 0) && negb (streamEnded s))
    eqn:E; [|done].
  apply IH, push_heeded; [|done].
  apply andb_true_iff in E as [_ E]. by apply negb_true_iff in E.
Qed.

Lemma onResultSet_heeded p s :
  heeded consumer s → heeded consumer (onResultSet consumer p s).
Proof.
  intros Hs. unfold onResultSet. destruct (truthy (err p)).
  { simpl. destruct (error_listener s); eapply heeded_mono; try exact Hs;
      simpl; rewrite ?pushed_app, ?app_nil_r; done. }
  pose proof (emit_heeded (results p) s Hs) as He.
  repeat case_match; try done; eapply heeded_mono; try exact He; simpl;
    rewrite ?pushed_app, ?app_nil_r; done.
Qed.

Lemma step_heeded s e s' :
  asynchronous e = true → step consumer s e = Some s' →
  heeded consumer s → heeded consumer s'.
Proof.
  intros Ha Hs Hh. asynchronous_cases e Ha; simpl in Hs.
  - destruct (_ || _); injection Hs as <-; [done|].
    by eapply heeded_mono; [| |exact Hh].
  - unfold result in Hs. destruct (in_flight s); [done|]. injection Hs as <-.
    apply onResultSet_heeded. by eapply heeded_mono; [| |exact Hh].
  - injection Hs as <-. eapply heeded_mono; [| |exact Hh]; simpl; [|done].
    by rewrite pushed_app, app_nil_r.
  - injection Hs as <-. by eapply heeded_mono; [| |exact Hh].
Qed.

Lemma run_heeded es : ∀ s s',
  forallb asynchronous es = true → run consumer s es = Some s' →
  heeded consumer s → heeded consumer s'.
Proof.
  induction es as [|e es IH]; intros s s'; simpl.
  - by intros _ [= <-].
  - intros [He Hes]%andb_true_iff.
    destruct (step consumer s e) as [s1|] eqn:E; simpl; [|done].
    intros H Hh. eapply IH; [done..|]. by eapply step_heeded.
Qed.


End Serial.

Lemma one_fetch_at_a_time_witness :
  ∃ s, run passive (runAsStream_ (stream_args (-1)))
         [Reading; Result page_a; Result page_bc] = Some s ∧
       (in_flight s ≤ 1)%nat.
Proof.
  eexists. split; [reflexivity|].
  refine (proj1 (one_fetch_at_a_time passive (stream_args (-1))
    [Reading; Result page_a; Result page_bc] _ _)).
  reflexivity.
Defined.



(** ** Runs with a consumer that only reads *)

Section Passive.

Variable consumer : list value → bool.
Hypothesis consumer_passive : ∀ received, consumer received = false.

Lemma advance_0 items s : advance 0 items s = s.
Proof.
  destruct s. unfold advance. simpl. f_equal; [lia|by rewrite app_nil_r].
Qed.

Lemma cap_cons r n :
  r ≠ 0 → cap r (S n) = S (cap (r - 1) n).
Proof. unfold cap. intros. repeat case_match; lia. Qed.

Lemma cap_0 n : cap 0 n = 0%nat.
Proof. done. Qed.

Lemma emit_passive items s :
  streamEnded s = false → forallb truthy items = true →
  emit consumer items s = advance (cap (resultsToSend s) (length items)) items s.
Proof.
  revert s. induction items as [|v items IH]; intros s He Ht.
  - simpl. unfold cap. rewrite Nat.min_0_r.
    destruct (_ <? 0); by rewrite advance_0.
  - simpl in Ht. apply andb_true_iff in Ht as [Hv Ht].
    cbn [emit]. rewrite Hv, He. simpl.
    destruct (resultsToSend s =? 0) eqn:E; simpl.
    + apply Z.eqb_eq in E. rewrite E, cap_0. by rewrite advance_0.
    + apply Z.eqb_neq in E. unfold push. rewrite consumer_passive.
      rewrite IH by done. simpl. rewrite cap_cons by done.
      unfold advance. simpl. f_equal; [lia|].
      by rewrite <- app_assoc.
Qed.

(** A good page under a counter that does not run out in it: all items
    go out; the stream goes on if there is a [nextQuery] and ends if
    not. *)
Lemma onResultSet_whole_page p s :
  streamEnded s = false → good_page p = true →
  (resultsToSend s < 0 ∨ Z.of_nat (length (results p)) < resultsToSend s) →
  onResultSet consumer p s =
    let s' := advance (length (results p)) (results p) s in
    if truthy (nextQuery p) then originalMethod (nextQuery p) s'
    else stream_end s'.
Proof.
  intros He Hg Hr. apply andb_true_iff in Hg as [Herr Ht].
  apply negb_true_iff in Herr. unfold onResultSet. rewrite Herr.
  rewrite emit_passive by done.
  assert (cap (resultsToSend s) (length (results p)) = length (results p)) as ->.
  { unfold cap. case_match; lia. }
  simpl. rewrite He.
  destruct (_ =? 0) eqn:E; [|done]. apply Z.eqb_eq in E. lia.
Qed.

(** A good page in which the counter runs out: as many items as the
    counter allows go out, and the stream ends, [nextQuery] or not. *)
Lemma onResultSet_capped p s :
  streamEnded s = false → good_page p = true →
  0 ≤ resultsToSend s ≤ Z.of_nat (length (results p)) →
  onResultSet consumer p s =
    stream_end (advance (Z.to_nat (resultsToSend s)) (results p) s).
Proof.
  intros He Hg Hr. apply andb_true_iff in Hg as [Herr Ht].
  apply negb_true_iff in Herr. unfold onResultSet. rewrite Herr.
  rewrite emit_passive by done.
  assert (cap (resultsToSend s) (length (results p)) = Z.to_nat (resultsToSend s)) as ->.
  { unfold cap. case_match; lia. }
  simpl. rewrite He.
  destruct (_ =? 0) eqn:E; [done|]. apply Z.eqb_neq in E. lia.
Qed.

Lemma all_items_cons p pages : all_items (p :: pages) = results p ++ all_items pages.
Proof. done. Qed.

Lemma deliver_capped pages : ∀ s,
  streamEnded s = false → in_flight s = 1%nat → chained pages = true →
  0 < resultsToSend s < Z.of_nat (length (all_items pages)) →
  ∃ k, (1 ≤ k ≤ length pages)%nat ∧
       Z.of_nat (length (all_items (take (k - 1) pages))) < resultsToSend s
         ≤ Z.of_nat (length (all_items (take k pages))) ∧
       deliver consumer s pages =
         {| parsedArguments := parsedArguments s; resultsToSend := 0;
            streamEnded := true; reading := reading s; in_flight := 0;
            calls := calls s ++ (nextQuery <$> take (k - 1) pages);
            out := out s ++ map EvPush (take (Z.to_nat (resultsToSend s))
                                          (all_items pages)) ++ [EvEnd];
            error_listener := error_listener s |}.
Proof.
  induction pages as [|p pages IH]; intros s He Hi Hc Hr.
  { simpl in Hr. lia. }
  cbn [chained] in Hc. apply andb_true_iff in Hc as [Hc Hch].
  apply andb_true_iff in Hc as [Hg Hn].
  rewrite all_items_cons, length_app in Hr.
  cbn [deliver]. unfold result. rewrite Hi.
  destruct (decide (resultsToSend s ≤ Z.of_nat (length (results p)))) as [Hle|Hgt].
  - exists 1%nat. rewrite onResultSet_capped by (simpl; done || lia).
    rewrite deliver_idle by (simpl; by rewrite Hi). simpl.
    rewrite !all_items_cons, take_app_le by lia.
    rewrite take_0. change (all_items []) with (@nil value).
    rewrite !app_nil_r. split; [lia|]. split; [lia|].
    unfold stream_end, log, advance. simpl. rewrite Hi. simpl.
    f_equal; [lia|]. by rewrite <- app_assoc.
  - destruct pages as [|p' pages'] eqn:Ep.
    { simpl in Hr. lia. }
    assert (truthy (nextQuery p) = true) as Hnq by done.
    clear Hn. rewrite <- Ep in *.
    rewrite onResultSet_whole_page by (simpl; done || lia).
    cbn zeta. rewrite Hnq.
    destruct (IH (originalMethod (nextQuery p)
                   (advance (length (results p)) (results p) (called_back s))))
      as (k & Hk & Hkr & Hd); [simpl; done|simpl; lia|done|simpl; lia|].
    exists (S k). simpl in Hkr, Hd. rewrite Hd.
    replace (S k - 1)%nat with (S (k - 1)) by lia.
    rewrite !firstn_cons, !all_items_cons, !length_app.
    split; [simpl; lia|]. split; [lia|].
    rewrite fmap_cons. f_equal.
    + by rewrite <- app_assoc.
    + rewrite <- !app_assoc. f_equal.
      rewrite take_app_ge by lia. rewrite (take_ge (results p)) by lia.
      rewrite map_app, <- app_assoc.
      by replace (Z.to_nat (resultsToSend s) - length (results p))%nat
        with (Z.to_nat (resultsToSend s - Z.of_nat (length (results p)))) by lia.
Qed.

End Passive.

(** A consumer that only reads is not told from no listener at all, so
    that a read in which the fetches call back at once comes to what
    the same results do when they come later. *)
Lemma emit_passive_ext c1 c2 items : ∀ s,
  (∀ received, c1 received = false) → (∀ received, c2 received = false) →
  emit c1 items s = emit c2 items s.
Proof.
  induction items as [|v items IH]; intros s H1 H2; simpl; [done|].
  destruct (_ && _); [|done]. unfold push. rewrite H1, H2. by apply IH.
Qed.

Lemma deliver_passive_ext c1 c2 pages : ∀ s,
  (∀ received, c1 received = false) → (∀ received, c2 received = false) →
  deliver c1 s pages = deliver c2 s pages.
Proof.
  induction pages as [|p pages IH]; intros s H1 H2; simpl; [done|].
  unfold result, onResultSet. destruct (in_flight s); [done|].
  rewrite (emit_passive_ext c1 c2) by done. by apply IH.
Qed.

Lemma hand_over_passive c buffered : ∀ seen s,
  (∀ received, c received = false) → hand_over c seen buffered s = s.
Proof.
  induction buffered as [|v buffered IH]; intros seen s Hc; simpl; [done|].
  rewrite Hc. by apply IH.
Qed.

Lemma step_sync_passive c s pages :
  (∀ received, c received = false) →
  reading s = false → streamEnded s = false →
  step c s (ReadingSync pages) =
    Some (deliver c (originalMethod (query (parsedArguments s)) (start_reading s))
            pages).
Proof.
  intros Hc Hr He. simpl. rewrite Hr, He. simpl.
  rewrite hand_over_passive by done.
  by rewrite (deliver_passive_ext buffering c).
Qed.

(** C3 as stated fails: with [maxResults = 2] and four items in three
    pages, a consumer that ends the stream at the first item is handed
    that item only; the stream is ended with its counter at 1. *)
Lemma cap_not_reached_when_the_consumer_ends :
  0 < maxResults (stream_args 2)
    < Z.of_nat (length (all_items [page_a; page_bc; page_d])) ∧
  (∃ s, run (stop_after 1) (runAsStream_ (stream_args 2))
          [Reading; Result page_a] = Some s ∧
        out s = [EvPush item_a; EvEnd] ∧ resultsToSend s = 1 ∧
        in_flight s = 0%nat ∧
        deliver (stop_after 1) s [page_bc; page_d] = s) ∧
  ¬ cap_reached (stop_after 1) (stream_args 2) [page_a; page_bc; page_d].
Proof.
  split; [by vm_compute|]. split.
  - eexists. split; [reflexivity|]. by repeat split.
  - intros (s1 & Hs & Hl). vm_compute in Hs. injection Hs as <-.
    vm_compute in Hl. discriminate.
Qed.

(** C3, amended: with [maxResults = m], [0 < m], less than the number
    of items that the pages hold, pages that succeed, hold truthy items
    and are linked by their [nextQuery], and a consumer that only reads,
    exactly the first [m] items are pushed and then the stream is ended,
    with the counter at zero.  The fetches are the first [k] of the
    chain, where the [k]-th page is the one that holds the [m]-th item:
    none is issued after it, whether that page has a [nextQuery] or not.
    It is the same when the fetches call back at once, inside the
    read. *)
Theorem cap_ends_the_stream (consumer : list value → bool) (d : descriptor)
    (pages : list page) :
  (∀ received, consumer received = false) →
  0 < maxResults d < Z.of_nat (length (all_items pages)) →
  chained pages = true →
  ∃ s1 k,
    step consumer (runAsStream_ d) Reading = Some s1 ∧
    let s := deliver consumer s1 pages in
    let m := Z.to_nat (maxResults d) in
    out s = map EvPush (take m (all_items pages)) ++ [EvEnd] ∧
    length (pushed (out s)) = m ∧
    resultsToSend s = 0 ∧ streamEnded s = true ∧ in_flight s = 0%nat ∧
    calls s = query d :: (nextQuery <$> take (k - 1) pages) ∧
    length (calls s) = k ∧ (1 ≤ k ≤ length pages)%nat ∧
    Z.of_nat (length (all_items (take (k - 1) pages))) < maxResults d
      ≤ Z.of_nat (length (all_items (take k pages))) ∧
    step consumer (runAsStream_ d) (ReadingSync pages) = Some s.
Proof.
  intros Hp Hm Hc.
  destruct (deliver_capped consumer Hp pages
    (originalMethod (query d) (start_reading (runAsStream_ d))))
    as (k & Hk & Hkr & Hd); [done..|].
  exists (originalMethod (query d) (start_reading (runAsStream_ d))), k.
  split; [reflexivity|]. cbn zeta.
  rewrite (step_sync_passive consumer) by done.
  change (query (parsedArguments (runAsStream_ d))) with (query d).
  rewrite Hd. simpl in *.
  repeat split; try lia.
  - rewrite pushed_app, pushed_map_push. simpl. rewrite app_nil_r.
    rewrite length_take. lia.
  - rewrite length_fmap, length_take. lia.
Qed.

Lemma cap_ends_the_stream_witness :
  ∃ s1,
    step passive (runAsStream_ (stream_args 2)) Reading = Some s1 ∧
    out (deliver passive s1 [page_a; page_bc; page_d]) =
      [EvPush item_a; EvPush item_b; EvEnd] ∧
    calls (deliver passive s1 [page_a; page_bc; page_d]) = [query1; query2].
Proof.
  destruct (cap_ends_the_stream passive (stream_args 2)
    [page_a; page_bc; page_d]) as (s1 & k & Hs & Ho & _ & _ & _ & _ & Hc & _);
    [done|vm_compute; by split|done|].
  injection Hs as <-. exists (originalMethod query1
    (start_reading (runAsStream_ (stream_args 2)))).
  split; [reflexivity|]. split; [exact Ho|reflexivity].
Defined.

Section LastPage.

Variable consumer : list value → bool.
Hypothesis consumer_passive : ∀ received, consumer received = false.

(** A good page with no [nextQuery], under a counter that does not run
    out before the end of the page: all items go out, then the end. *)
Lemma onResultSet_last_page p s :
  streamEnded s = false → good_page p = true →
  truthy (nextQuery p) = false →
  (resultsToSend s < 0 ∨ Z.of_nat (length (results p)) ≤ resultsToSend s) →
  onResultSet consumer p s =
    stream_end (advance (length (results p)) (results p) s).
Proof.
  intros He Hg Hn Hr.
  destruct (decide (resultsToSend s = Z.of_nat (length (results p)))) as [E|E].
  - rewrite onResultSet_capped by (done || lia).
    by rewrite E, Nat2Z.id.
  - rewrite onResultSet_whole_page by (done || lia). cbn zeta. by rewrite Hn.
Qed.

End LastPage.

Lemma concat_pipe_pushes items body o :
  concat_pipe body false (map EvPush items ++ o) =
  concat_pipe (body ++ items) false o.
Proof.
  revert body. induction items as [|v items IH]; intros body; simpl.
  - by rewrite app_nil_r.
  - by rewrite IH, <- app_assoc.
Qed.

(** C2 as stated fails: a page without error and without [nextQuery],
    read with [maxResults = 1], gives its first item only. *)
Lemma capped_page_not_whole :
  truthy (err page_ab) = false ∧ truthy (nextQuery page_ab) = false ∧
  (∃ s, run passive (runAsStream_ (stream_args 1)) [Reading; Result page_ab] = Some s ∧
        out s = [EvPush item_a; EvEnd]) ∧
  ¬ whole_page_emitted passive (stream_args 1) page_ab.
Proof.
  split; [done|]. split; [done|]. split.
  - eexists. split; reflexivity.
  - intros (s & Hs & Ho). vm_compute in Hs. injection Hs as <-.
    vm_compute in Ho. discriminate.
Qed.

(** C2, amended: when the first page has no error and no [nextQuery],
    its items are truthy, the consumer only reads and [maxResults] is
    negative or at least the number of items of the page, the stream
    pushes the items of the page, all of them and in their order, and
    ends after one fetch; the aggregate callback, the items being
    objects, is called once, with these items. *)
Theorem whole_page_then_end (consumer : list value → bool) (d : descriptor)
    (p : page) (cb : value) :
  (∀ received, consumer received = false) →
  truthy (err p) = false → truthy (nextQuery p) = false →
  forallb truthy (results p) = true →
  (maxResults d < 0 ∨ Z.of_nat (length (results p)) ≤ maxResults d) →
  (∃ s, run consumer (runAsStream_ d) [Reading; Result p] = Some s ∧
        out s = map EvPush (results p) ++ [EvEnd] ∧
        calls s = [query d] ∧ in_flight s = 0%nat ∧ streamEnded s = true) ∧
  (object_page p = true →
   ∀ rest, callbacks (Aggregate cb (runAsStream_ d)) (p :: rest) =
           [CbResults (results p)]).
Proof.
  intros Hp He Hn Ht Hm.
  assert (good_page p = true) as Hg.
  { unfold good_page. by rewrite He, Ht. }
  split.
  - eexists. split; [reflexivity|].
    rewrite (onResultSet_last_page consumer Hp) by done.
    simpl. rewrite firstn_all. done.
  - intros _ rest. unfold callbacks.
    cbn [step runAsStream_ on_error reading streamEnded orb deliver].
    unfold result. cbn [originalMethod start_reading in_flight].
    rewrite (onResultSet_last_page concat_consumer) by done.
    rewrite deliver_idle by done. simpl. rewrite firstn_all.
    rewrite concat_pipe_pushes. done.
Qed.

Lemma whole_page_then_end_witness :
  whole_page_emitted passive (stream_args (-1)) page_ab ∧
  callbacks (Aggregate (VFun 0) (runAsStream_ (stream_args 2))) [page_ab] =
    [CbResults [item_a; item_b]].
Proof.
  split.
  - destruct (whole_page_then_end passive (stream_args (-1)) page_ab (VFun 0))
      as [(s & Hs & Ho & _) _]; [done|done|done|done|left; done|].
    exists s. by split.
  - apply (whole_page_then_end passive (stream_args 2) page_ab (VFun 0));
      [done|done|done|done|right; done|done].
Defined.

(** ** The counter *)

Lemma stream_end_balance s : balance (stream_end s) = balance s.
Proof. unfold balance. simpl. rewrite pushed_app, length_app. simpl. lia. Qed.

Section Balance.

Variable consumer : list value → bool.

Lemma push_balance v s :
  balance (decrement (push consumer v s)) = balance s.
Proof.
  unfold balance, push. destruct (consumer _); simpl;
    rewrite ?pushed_app, ?length_app; simpl; lia.
Qed.

Lemma emit_balance items s : balance (emit consumer items s) = balance s.
Proof.
  revert s. induction items as [|v items IH]; intros s; simpl; [done|].
  destruct (_ && _); [|done]. by rewrite IH, push_balance.
Qed.

Lemma onResultSet_balance p s : balance (onResultSet consumer p s) = balance s.
Proof.
  unfold onResultSet. destruct (truthy (err p)).
  - cbn zeta. destruct (error_listener _); rewrite ?stream_end_balance;
      unfold balance; simpl; rewrite pushed_app, length_app; simpl; lia.
  - repeat case_match; rewrite ?stream_end_balance;
      try apply emit_balance.
Qed.

End Balance.

Lemma step_balance c s e s' : step c s e = Some s' → balance s' = balance s.
Proof.
  revert c s e s'.
  apply (step_closure (λ s s', balance s' = balance s)); [congruence..|].
  intros c s e s' Ha. asynchronous_cases e Ha; simpl.
  - destruct (_ || _); by intros [= <-].
  - unfold result. destruct (in_flight s); [done|]. intros [= <-].
    by rewrite onResultSet_balance.
  - intros [= <-]. apply stream_end_balance.
  - by intros [= <-].
Qed.

Lemma run_balance c s es s' : run c s es = Some s' → balance s' = balance s.
Proof.
  revert c es s s'.
  apply (run_closure (λ s s', balance s' = balance s)); [congruence..|].
  apply step_balance.
Qed.

Section Counter.

Variable consumer : list value → bool.

(** C8, amended: with [maxResults = -1] the counter is decremented at
    each push like any other, so it stands at -1 minus the number of
    items pushed and is never zero.  The counter never goes up and the
    flag, once set, stays set.  When a page without error has been
    emitted and the consumer has not ended the stream, the handler goes
    on to the next fetch if the page has a [nextQuery], however many
    items went out, and ends the stream only if it has none. *)
Theorem unbounded_counter_never_zero (d : descriptor) (es : list event)
    (s : state) :
  maxResults d = -1 →
  run consumer (runAsStream_ d) es = Some s →
  resultsToSend s = -1 - Z.of_nat (length (pushed (out s))) ∧
  resultsToSend s ≠ 0 ∧
  (∀ e s', step consumer s e = Some s' →
     resultsToSend s' ≤ resultsToSend s ∧
     (streamEnded s = true → streamEnded s' = true)) ∧
  (∀ p s', step consumer s (Result p) = Some s' →
     truthy (err p) = false →
     streamEnded (emit consumer (results p) (called_back s)) = false →
     if truthy (nextQuery p)
     then streamEnded s' = false ∧ calls s' = calls s ++ [nextQuery p]
     else streamEnded s' = true ∧ calls s' = calls s).
Proof.
  intros Hm Hrun.
  pose proof (run_balance _ _ _ _ Hrun) as Hb. unfold balance in Hb.
  simpl in Hb. rewrite Hm in Hb.
  split; [lia|]. split; [lia|]. split.
  - intros e s' Hs. split; [by eapply step_counter|by eapply step_ended].
  - intros p s' Hs He Hend. simpl in Hs. unfold result in Hs.
    destruct (in_flight s); [done|]. injection Hs as <-.
    unfold onResultSet. rewrite He, Hend.
    pose proof (emit_balance consumer (results p) (called_back s)) as Hb'.
    pose proof (emit_frame consumer (results p) (called_back s)) as [].
    unfold balance in Hb'. simpl in *.
    destruct (_ =? 0) eqn:E; [apply Z.eqb_eq in E; lia|].
    destruct (truthy (nextQuery p)); simpl; split; congruence.
Qed.

End Counter.

(** C8 as stated fails: the decrement is not skipped for -1; after one
    item the counter stands at -2. *)
Lemma unbounded_counter_is_decremented :
  maxResults (stream_args (-1)) = -1 ∧
  resultsToSend <$>
    run passive (runAsStream_ (stream_args (-1))) [Reading; Result page_a]
  = Some (-2).
Proof. split; reflexivity. Qed.

Lemma unbounded_counter_never_zero_witness :
  ∃ s, run passive (runAsStream_ (stream_args (-1)))
         [Reading; Result page_a; Result page_bc] = Some s ∧
       resultsToSend s = -4 ∧ streamEnded s = false ∧ in_flight s = 1%nat.
Proof.
  eexists. split; [reflexivity|].
  split; [|split; reflexivity].
  etransitivity;
    [exact (proj1 (unbounded_counter_never_zero passive (stream_args (-1))
       [Reading; Result page_a; Result page_bc] _ eq_refl eq_refl))|].
  reflexivity.
Defined.

(** ** The aggregate mode *)

Section Flow.

Variable consumer : list value → bool.
Hypothesis consumer_passive : ∀ received, consumer received = false.

(** Without a cap, good pages that all have a [nextQuery] are pushed
    whole, and the fetch for the next one is in flight. *)
Lemma deliver_flowing pages : ∀ s,
  streamEnded s = false → in_flight s = 1%nat → resultsToSend s < 0 →
  forallb flowing pages = true →
  deliver consumer s pages =
    {| parsedArguments := parsedArguments s;
       resultsToSend := resultsToSend s - Z.of_nat (length (all_items pages));
       streamEnded := false; reading := reading s; in_flight := 1;
       calls := calls s ++ (nextQuery <$> pages);
       out := out s ++ map EvPush (all_items pages);
       error_listener := error_listener s |}.
Proof.
  induction pages as [|p pages IH]; intros s He Hi Hr Hf.
  - destruct s. simpl in *. subst. f_equal; [lia|..]; by rewrite app_nil_r.
  - simpl in Hf. apply andb_true_iff in Hf as [Hp Hf].
    apply andb_true_iff in Hp as [Hg Hn].
    cbn [deliver]. unfold result. rewrite Hi.
    rewrite (onResultSet_whole_page consumer consumer_passive)
      by (simpl; done || lia).
    cbn zeta. rewrite Hn. rewrite IH; [|simpl; done || lia..].
    simpl. rewrite firstn_all, all_items_cons, length_app, map_app.
    f_equal; [lia|by rewrite <- app_assoc..].
Qed.

Lemma deliver_app s ps qs :
  deliver consumer s (ps ++ qs) = deliver consumer (deliver consumer s ps) qs.
Proof.
  revert s. induction ps as [|p ps IH]; intros s; [done|].
  cbn [app deliver]. destruct (result consumer p s) as [s'|] eqn:E.
  - apply IH.
  - unfold result in E. destruct (in_flight s) eqn:Ei; [|done].
    by rewrite deliver_idle.
Qed.

(** When a fetch fails after such pages, the handler emits the error
    and, the listener having run, ends the stream. *)
Lemma deliver_failure pages failure rest s :
  streamEnded s = false → in_flight s = 1%nat → resultsToSend s < 0 →
  error_listener s = true →
  forallb flowing pages = true → truthy (err failure) = true →
  let s' := deliver consumer s (pages ++ failure :: rest) in
  out s' = out s ++ map EvPush (all_items pages) ++ [EvError (err failure); EvEnd] ∧
  calls s' = calls s ++ (nextQuery <$> pages) ∧
  in_flight s' = 0%nat ∧ streamEnded s' = true.
Proof.
  intros He Hi Hr Hl Hf Herr.
  rewrite deliver_app, (deliver_flowing pages s) by done.
  cbn [deliver]. unfold result. cbn [in_flight].
  unfold onResultSet. cbn [called_back err]. rewrite Herr.
  cbn [log error_listener]. rewrite Hl.
  rewrite deliver_idle by done. simpl. by rewrite <- !app_assoc.
Qed.

(** With no listener the error is thrown at the handler, which is left
    before it ends the stream. *)
Lemma deliver_failure_thrown pages failure rest s :
  streamEnded s = false → in_flight s = 1%nat → resultsToSend s < 0 →
  error_listener s = false →
  forallb flowing pages = true → truthy (err failure) = true →
  let s' := deliver consumer s (pages ++ failure :: rest) in
  out s' = out s ++ map EvPush (all_items pages) ++ [EvError (err failure)] ∧
  calls s' = calls s ++ (nextQuery <$> pages) ∧
  in_flight s' = 0%nat ∧ streamEnded s' = false.
Proof.
  intros He Hi Hr Hl Hf Herr.
  rewrite deliver_app, (deliver_flowing pages s) by done.
  cbn [deliver]. unfold result. cbn [in_flight].
  unfold onResultSet. cbn [called_back err]. rewrite Herr.
  cbn [log error_listener]. rewrite Hl.
  rewrite deliver_idle by done. simpl. by rewrite <- !app_assoc.
Qed.

End Flow.

(** C1 fails on every failing fetch: in the aggregate mode, after any
    number of good pages, a page fetch that reports an error makes the
    handler emit the error, which calls the callback with the error,
    and then end the stream, which makes the concat stream call back
    with the items collected so far: the callback is called twice, the
    second time with the partial result. *)
Theorem aggregate_error_calls_back_twice (d : descriptor) (pages : list page)
    (failure : page) (rest : list page) :
  truthy (callback d) = true → autoPaginate d = true →
  maxResults d < 0 →
  forallb flowing pages = true → forallb object_page pages = true →
  truthy (err failure) = true →
  callbacks (router_ d) (pages ++ failure :: rest) =
    [CbError (err failure); CbResults (all_items pages)].
Proof.
  intros Hc Ha Hm Hf _ He. unfold router_. rewrite Hc, Ha.
  unfold callbacks. cbn [step runAsStream_ on_error reading streamEnded orb].
  change (query (parsedArguments (on_error (runAsStream_ d)))) with (query d).
  destruct (deliver_failure concat_consumer (λ _, eq_refl) pages failure rest
    (originalMethod (query d) (start_reading (on_error (runAsStream_ d)))))
    as [-> _]; [done..|].
  simpl. by rewrite concat_pipe_pushes.
Qed.

Lemma aggregate_error_calls_back_twice_witness :
  callbacks (router_ aggregate_args) [page_a; failed_fetch] =
    [CbError failure; CbResults [item_a]] ∧
  callbacks (router_ aggregate_args) [failed_fetch] =
    [CbError failure; CbResults []].
Proof.
  split.
  - exact (aggregate_error_calls_back_twice aggregate_args [page_a]
             failed_fetch [] eq_refl eq_refl eq_refl eq_refl eq_refl eq_refl).
  - exact (aggregate_error_calls_back_twice aggregate_args []
             failed_fetch [] eq_refl eq_refl eq_refl eq_refl eq_refl eq_refl).
Defined.

(** ** Objects: what the BigQuery methods leave alone *)

Lemma alloc_fresh (h : heap) (o : obj) : h !! (alloc h o).2 = None.
Proof. simpl. apply not_elem_of_dom, is_fresh. Qed.

Lemma alloc_heap (h : heap) (o : obj) : (alloc h o).1 = <[(alloc h o).2 := o]> h.
Proof. done. Qed.

Lemma alloc_frame (h0 h : heap) (o : obj) : h0 ⊆ h → h0 ⊆ (alloc h o).1.
Proof.
  intros H. etrans; [exact H|]. rewrite alloc_heap.
  apply insert_subseteq, alloc_fresh.
Qed.

Lemma alloc_fresh_below (h0 h : heap) (o : obj) :
  h0 ⊆ h → h0 !! (alloc h o).2 = None.
Proof.
  intros H. destruct (h0 !! (alloc h o).2) as [x|] eqn:E; [|done].
  eapply lookup_weaken in E; [|exact H]. by rewrite alloc_fresh in E.
Qed.

Lemma set_frame (h0 h : heap) l k v :
  h0 !! l = None → h0 ⊆ h → h0 ⊆ set h l k v.
Proof.
  intros Hl H. apply map_subseteq_spec. intros i x Hi.
  unfold set. rewrite lookup_alter_ne by congruence.
  by eapply lookup_weaken.
Qed.

Lemma delete_prop_frame (h0 h : heap) l k :
  h0 !! l = None → h0 ⊆ h → h0 ⊆ delete_prop h l k.
Proof.
  intros Hl H. apply map_subseteq_spec. intros i x Hi.
  unfold delete_prop. rewrite lookup_alter_ne by congruence.
  by eapply lookup_weaken.
Qed.

Lemma Job_frame (h0 h : heap) bq id :
  h0 ⊆ h →
  h0 !! (BigQuery.Job h bq id).2 = None ∧ h0 ⊆ (BigQuery.Job h bq id).1.
Proof.
  intros H. unfold BigQuery.Job, alloc. cbn zeta beta iota.
  assert (∀ (g : heap) (o : obj), h0 ⊆ g → h0 ⊆ <[fresh (dom g) := o]> g) as Hins.
  { intros g o Hg. apply (alloc_frame h0 g o Hg). }
  pose proof (alloc_fresh_below h0 h ∅ H) as Hf. simpl in Hf.
  split; [exact Hf|].
  apply set_frame; [exact Hf|]. apply Hins.
  do 2 (apply set_frame; [exact Hf|]). by apply Hins.
Qed.

(** The new object of [extend({}, query, {pageToken: token})]. *)
Lemma extend_pageToken (o : obj) (token : value) :
  truthy token = true →
  foldl extend_with ∅ [o; {[ "pageToken" := token ]}] =
  <[ "pageToken" := token ]> (filter (λ kv, defined kv.2) o).
Proof.
  intros Ht. simpl. unfold extend_with.
  rewrite map_filter_singleton_True by (by destruct token).
  rewrite (right_id_L ∅ (∪)). by rewrite insert_union_singleton_l.
Qed.

Lemma get_defined (o : obj) k :
  default VUndefined (filter (λ kv, defined kv.2) o !! k) =
  default VUndefined (o !! k).
Proof.
  rewrite map_lookup_filter. destruct (o !! k) as [v|]; simpl; [|done].
  case_guard as Hd; simpl; [done|].
  unfold defined in Hd. simpl in Hd. by destruct (decide (v = VUndefined)) as [->|].
Qed.

(** Reading the copy: [pageToken] is the token, every other property
    reads as it does on the original. *)
Lemma get_copy (h h' : heap) l q o token k :
  h !! q = Some o →
  h' !! l = Some (<[ "pageToken" := token ]> (filter (λ kv, defined kv.2) o)) →
  get h' (VObj l) k =
    if decide (k = "pageToken"%string) then token else get h (VObj q) k.
Proof.
  intros Hq Hl. simpl. rewrite Hl, Hq. simpl.
  destruct (decide (k = "pageToken"%string)) as [->|Hne].
  - by rewrite lookup_insert_eq.
  - rewrite lookup_insert_ne by done. apply get_defined.
Qed.

Lemma next_query_null h q token :
  (BigQuery.next_query h q token).2 = VNull ↔ truthy token = false.
Proof.
  unfold BigQuery.next_query. destruct (truthy token); [|done].
  destruct (extend _ _). simpl. split; discriminate.
Qed.

Lemma next_query_frame h0 h q token :
  h0 ⊆ h → h0 ⊆ (BigQuery.next_query h q token).1.
Proof.
  intros H. unfold BigQuery.next_query. destruct (truthy token); [|done].
  unfold extend. pose proof (alloc_frame h0 h
    (foldl extend_with ∅ [props h q; {["pageToken" := token]}]) H).
  by destruct (alloc _ _).
Qed.

Lemma next_query_copy h l o token :
  h !! l = Some o → truthy token = true →
  ∃ l', BigQuery.next_query h (VObj l) token =
          (<[l' := <[ "pageToken" := token ]> (filter (λ kv, defined kv.2) o)]> h,
           VObj l') ∧
        h !! l' = None.
Proof.
  intros Hl Ht. unfold BigQuery.next_query. rewrite Ht.
  unfold extend, props. rewrite Hl. simpl default.
  rewrite extend_pageToken by done.
  eexists. split; [reflexivity|]. apply (alloc_fresh h ∅).
Qed.

Lemma read_some h v k : v ≠ VUndefined → v ≠ VNull → read h v k = Some (get h v k).
Proof. by destruct v. Qed.

Lemma get_weaken (h0 h : heap) l o k :
  h0 !! l = Some o → h0 ⊆ h → get h (VObj l) k = default VUndefined (o !! k).
Proof. intros Hl H. simpl. by rewrite (lookup_weaken _ _ _ _ Hl H). Qed.

Section Frames.

Variable dataset : heap → value → value → heap * loc.

(** The constructor of Dataset makes a new object and changes none that
    existed. *)
Hypothesis dataset_new : ∀ h that id,
  h !! (dataset h that id).2 = None ∧ h ⊆ (dataset h that id).1.

Lemma wrap_datasets_frame that datasets : ∀ h0 h,
  Forall (readable_dataset h0) datasets → h0 ⊆ h →
  ∃ h' items, BigQuery.wrap_datasets dataset h that datasets = Some (h', items) ∧
              h ⊆ h' ∧ length items = length datasets.
Proof.
  induction datasets as [|d ds IH]; intros h0 h Hr Hs.
  { exists h, []. by simpl. }
  apply Forall_cons in Hr as [(l & o & ref & -> & Hl & Ho & Hu & Hn) Hr].
  cbn [BigQuery.wrap_datasets]. rewrite read_some by done.
  rewrite (get_weaken _ _ _ _ _ Hl Hs), Ho. simpl.
  rewrite read_some by done. simpl.
  destruct (dataset_new h that (get h ref "datasetId")) as [Hf Hd].
  destruct (dataset h that (get h ref "datasetId")) as [h1 ds1]. simpl in *.
  assert (h ⊆ set h1 ds1 "metadata" (VObj l)) as Hs1 by (by apply set_frame).
  destruct (IH h0 (set h1 ds1 "metadata" (VObj l)) Hr) as (h' & items & -> & Hs' & Hlen).
  { by etrans. }
  simpl. exists h', (VObj ds1 :: items). simpl. rewrite Hlen.
  split; [done|]. split; [by etrans|done].
Qed.

Lemma wrap_jobs_frame that jobs : ∀ h0 h,
  Forall readable_job jobs → h0 ⊆ h →
  ∃ h' items, BigQuery.wrap_jobs h that jobs = Some (h', items) ∧
              h ⊆ h' ∧ length items = length jobs.
Proof.
  induction jobs as [|j js IH]; intros h0 h Hr Hs.
  { exists h, []. by simpl. }
  apply Forall_cons in Hr as [[Hu Hn] Hr].
  cbn [BigQuery.wrap_jobs]. rewrite read_some by done.
  cbn [mbind option_bind].
  destruct (Job_frame h h that (get h j "id") (reflexivity h)) as [Hf Hj].
  destruct (BigQuery.Job h that (get h j "id")) as [h1 job].
  cbn [fst snd] in Hf, Hj.
  assert (h ⊆ set h1 job "metadata" j) as Hs1 by (by apply set_frame).
  destruct (IH h0 (set h1 job "metadata" j) Hr) as (h' & items & -> & Hs' & Hlen).
  { by etrans. }
  cbn [mbind option_bind]. exists h', (VObj job :: items).
  cbn [length]. rewrite Hlen.
  split; [done|]. split; [by etrans|done].
Qed.

(** C9: on a successful response of [getDatasets] and of [getJobs], the
    [nextQuery] given to the callback is null exactly when
    [resp.nextPageToken] is not truthy (absent, or the empty string);
    otherwise it is an object that did not exist before, holding the
    defined fields of the caller's query with [pageToken] set to the
    token.  Every object that existed, the caller's query among them,
    is as it was; the call itself passes the caller's object on by
    reference. *)
Theorem nextQuery_is_a_fresh_copy (h : heap) (this that cb : value)
    (q : loc) (o : obj) (resp : loc) (datasets jobs : list value) :
  h !! q = Some o →
  Forall (readable_dataset h) datasets → Forall readable_job jobs →
  let token := get h (VObj resp) "nextPageToken" in
  (BigQuery.getDatasets h this (VObj q) cb).1 = (h, VObj q, cb) ∧
  (BigQuery.getJobs h this (VObj q) cb).1 = (h, VObj q, cb) ∧
  (∃ h' r, BigQuery.getDatasets_response dataset h that (VObj q)
             VNull (VObj resp) datasets = Some (h', r) ∧
           fresh_continuation h q o token h' r ∧
           BigQuery.r_resp r = VObj resp) ∧
  (∃ h' r, BigQuery.getJobs_response h that (VObj q)
             VNull (VObj resp) jobs = Some (h', r) ∧
           fresh_continuation h q o token h' r ∧
           BigQuery.r_resp r = VObj resp).
Proof.
  intros Hq Hd Hj token.
  assert (∀ h1 nq, BigQuery.next_query h (VObj q) token = (h1, nq) →
            h ⊆ h1 ∧ (nq = VNull ↔ truthy token = false) ∧
            (truthy token = true →
               ∃ l, nq = VObj l ∧ h !! l = None ∧ l ≠ q ∧
                    h1 !! l = Some (<[ "pageToken" := token ]>
                                      (filter (λ kv, defined kv.2) o)))) as Hnext.
  { intros h1 nq E.
    pose proof (next_query_frame h h (VObj q) token (reflexivity h)) as Hf.
    pose proof (next_query_null h (VObj q) token) as Hn.
    rewrite E in Hf, Hn. simpl in *. split; [done|]. split; [done|].
    intros Ht. destruct (next_query_copy h q o token Hq Ht) as (l & E' & Hl).
    rewrite E in E'. injection E' as -> ->. exists l.
    split; [done|]. split; [done|]. split; [congruence|].
    apply lookup_insert_eq. }
  split; [done|]. split; [done|].
  unfold BigQuery.getDatasets_response, BigQuery.getJobs_response.
  cbn [truthy read mbind option_bind]. fold token.
  destruct (BigQuery.next_query h (VObj q) token) as [h1 nq] eqn:E.
  destruct (Hnext h1 nq eq_refl) as (Hs & Hnull & Hcopy).
  split.
  - destruct (wrap_datasets_frame that datasets h h1 Hd Hs)
      as (h' & items & -> & Hs' & _).
    simpl. exists h', (BigQuery.Reply VNull (Some items) nq (VObj resp)).
    split; [done|]. split; [|done].
    split; [done|]. split; [done|]. split.
    + intros Ht. destruct (Hcopy Ht) as (l & -> & Hl & Hne & Hl1).
      pose proof (lookup_weaken _ _ _ _ Hl1 Hs') as Hl2.
      exists l. split; [done|]. split; [done|]. split; [done|].
      split; [done|]. intros k. by eapply get_copy.
    + split; [by etrans|]. eapply lookup_weaken; [exact Hq|by etrans].
  - destruct (wrap_jobs_frame that jobs h h1 Hj Hs)
      as (h' & items & -> & Hs' & _).
    simpl. exists h', (BigQuery.Reply VNull (Some items) nq (VObj resp)).
    split; [done|]. split; [|done].
    split; [done|]. split; [done|]. split.
    + intros Ht. destruct (Hcopy Ht) as (l & -> & Hl & Hne & Hl1).
      pose proof (lookup_weaken _ _ _ _ Hl1 Hs') as Hl2.
      exists l. split; [done|]. split; [done|]. split; [done|].
      split; [done|]. intros k. by eapply get_copy.
    + split; [by etrans|]. eapply lookup_weaken; [exact Hq|by etrans].
Qed.

End Frames.

Lemma sample_dataset_new h that id :
  h !! (sample_dataset h that id).2 = None ∧ h ⊆ (sample_dataset h that id).1.
Proof. split; [apply alloc_fresh|by apply alloc_frame]. Qed.

Lemma nextQuery_is_a_fresh_copy_witness :
  (∃ h' r,
     BigQuery.getDatasets_response sample_dataset sample_heap (VObj 5%positive)
       (VObj 1%positive) VNull (VObj 2%positive) [VObj 3%positive] = Some (h', r) ∧
     fresh_continuation sample_heap 1%positive sample_query (VStr "t1") h' r) ∧
  (∃ h' r,
     BigQuery.getJobs_response sample_heap (VObj 5%positive)
       (VObj 1%positive) VNull (VObj 2%positive) [VObj 8%positive] = Some (h', r) ∧
     fresh_continuation sample_heap 1%positive sample_query (VStr "t1") h' r).
Proof.
  destruct (nextQuery_is_a_fresh_copy sample_dataset sample_dataset_new
    sample_heap (VObj 5%positive) (VObj 5%positive) (VFun 0) 1%positive
    sample_query 2%positive [VObj 3%positive] [VObj 8%positive])
    as (_ & _ & (h1 & r1 & H1 & H2 & _) & (h2 & r2 & H3 & H4 & _)).
  - reflexivity.
  - apply Forall_singleton. exists 3%positive, {[ "id" := VStr "p:x";
      "datasetReference" := VObj 4%positive ]}, (VObj 4%positive).
    repeat split; done.
  - apply Forall_singleton. by split.
  - split; [exists h1, r1|exists h2, r2]; by split.
Defined.

Lemma query_original_frame (h : heap) (that : value) (l : loc) :
  h ⊆ (BigQuery.query_original h that (VObj l)).1.
Proof.
  unfold BigQuery.query_original.
  change (util_is (VObj l) "string") with false.
  cbn [truthy]. cbn zeta beta iota. unfold extend.
  pose proof (alloc_frame h h (foldl extend_with ∅ [props h (VObj l)])
                (reflexivity h)) as Hs.
  pose proof (alloc_fresh h (foldl extend_with ∅ [props h (VObj l)])) as Hf.
  destruct (alloc h _) as [h1 rq]. cbn [fst snd] in *.
  assert (h ⊆ delete_prop h1 rq "job") by (by apply delete_prop_frame).
  by destruct (truthy (get h (VObj l) "job")).
Qed.

(** C10: for an options object of the caller, [getQueryResults] sets
    [job] on that very object (no new object is made and no other
    object changes) and hands the same reference to [bigQuery.query].
    When that call has returned the field is still there, in every mode:
    with a callback the original [query] has run by then, in the direct
    mode and, the pipe reading at once, in the aggregate mode, on the
    caller's object itself, and it only changes a copy; without a
    callback nothing has been fetched yet. *)
Theorem getQueryResults_sets_job_in_place (h : heap) (this l : loc) (o : obj)
    (cb bq : value) :
  h !! l = Some o →
  ∃ h',
    BigQuery.getQueryResults h this (VObj l) cb = Some (h', [VObj l; cb]) ∧
    h' !! l = Some (<[ "job" := VObj this ]> o) ∧
    dom h' = dom h ∧
    (∀ l', l' ≠ l → h' !! l' = h !! l') ∧
    ∃ h'' r req,
      BigQuery.query h' bq [VObj l; cb] = (h'', r, req) ∧
      h' ⊆ h'' ∧
      h'' !! l = Some (<[ "job" := VObj this ]> o) ∧
      (∀ q c, r = Direct q c → q = VObj l) ∧
      (∀ c s, r = Aggregate c s → query (parsedArguments s) = VObj l) ∧
      (truthy (callback_arg [VObj l; cb]) = true →
         h'' = (BigQuery.query_original h' bq (VObj l)).1 ∧
         req = Some (BigQuery.query_original h' bq (VObj l)).2 ∧
         ∀ s, r ≠ Streaming s) ∧
      (truthy (callback_arg [VObj l; cb]) = false →
         h'' = h' ∧ req = None ∧ ∃ s, r = Streaming s).
Proof.
  intros Hl. exists (set h l "job" (VObj this)).
  assert (set h l "job" (VObj this) !! l = Some (<[ "job" := VObj this ]> o)) as Hl'.
  { unfold set. by rewrite lookup_alter_eq, Hl. }
  split; [done|]. split; [done|]. split.
  { unfold set. apply dom_alter_L. }
  split.
  { intros l' Hne. unfold set. by rewrite lookup_alter_ne. }
  unfold BigQuery.query.
  rewrite (parse_query_truthy _ [VObj l; cb]) by done.
  change (query_arg [VObj l; cb]) with (VObj l).
  unfold router_. cbn [callback autoPaginate query].
  pose proof (query_original_frame (set h l "job" (VObj this)) bq l) as Hs.
  destruct (truthy (callback_arg [VObj l; cb])).
  2: { eexists _, _, _. split; [reflexivity|]. split; [done|]. split; [done|].
       split; [intros; discriminate|]. split; [intros; discriminate|].
       split; [done|]. intros _. split; [done|]. split; [done|]. by eexists. }
  destruct (autoPaginate _);
    destruct (BigQuery.query_original _ bq (VObj l)) as [h2 req];
    eexists _, _, _; (split; [reflexivity|]); cbn [fst snd] in *;
    (split; [done|]); (split; [by eapply lookup_weaken|]).
  - split; [intros; discriminate|]. split; [by intros c s [= _ <-]|].
    split; [|done]. intros _. split; [done|]. split; [done|]. intros; discriminate.
  - split; [by intros q c [= <- _]|]. split; [intros; discriminate|].
    split; [|done]. intros _. split; [done|]. split; [done|]. intros; discriminate.
Qed.

Lemma getQueryResults_sets_job_in_place_witness :
  ∃ h' h'' r req,
    BigQuery.getQueryResults sample_heap 6%positive (VObj 1%positive) (VFun 0)
      = Some (h', [VObj 1%positive; VFun 0]) ∧
    h' !! 1%positive = Some (<[ "job" := VObj 6%positive ]> sample_query) ∧
    BigQuery.query h' (VObj 5%positive) [VObj 1%positive; VFun 0]
      = (h'', r, Some req) ∧
    h'' !! 1%positive = Some (<[ "job" := VObj 6%positive ]> sample_query).
Proof.
  destruct (getQueryResults_sets_job_in_place sample_heap 6%positive 1%positive
    sample_query (VFun 0) (VObj 5%positive) eq_refl)
    as (h' & H1 & H2 & _ & _ & h'' & r & req & H3 & _ & H4 & _ & _ & H5 & _).
  destruct (H5 eq_refl) as (_ & -> & _).
  exists h', h'', r. eexists. split; [exact H1|]. split; [exact H2|].
  split; [exact H3|exact H4].
Defined.

(** ** Whole traversals without a cap *)

Section Traversal.

Variable consumer : list value → bool.
Hypothesis consumer_passive : ∀ received, consumer received = false.

Lemma deliver_to_the_end pages last rest s :
  streamEnded s = false → in_flight s = 1%nat → resultsToSend s < 0 →
  forallb flowing pages = true →
  good_page last = true → truthy (nextQuery last) = false →
  let s' := deliver consumer s (pages ++ last :: rest) in
  out s' = out s ++ map EvPush (all_items (pages ++ [last])) ++ [EvEnd] ∧
  calls s' = calls s ++ (nextQuery <$> pages) ∧
  in_flight s' = 0%nat ∧ streamEnded s' = true.
Proof.
  intros He Hi Hr Hf Hg Hn. cbn zeta.
  rewrite deliver_app, (deliver_flowing consumer consumer_passive pages s) by done.
  cbn [deliver]. unfold result. cbn [in_flight].
  rewrite (onResultSet_last_page consumer consumer_passive) by (simpl; done || lia).
  rewrite deliver_idle by done. simpl. rewrite firstn_all.
  unfold all_items. rewrite fmap_app, concat_app. simpl.
  rewrite !app_nil_r, map_app, <- !app_assoc. done.
Qed.

(** X1: an unbounded stream whose consumer only reads goes through all the
    pages of a chain: every item is pushed, in the order of the pages
    and within a page in the order of the page, then the stream ends;
    the fetches are one per page, each for the [nextQuery] of the page
    before. *)
Theorem unbounded_stream_emits_everything (d : descriptor)
    (pages : list page) (last : page) (rest : list page) :
  maxResults d < 0 →
  forallb flowing pages = true →
  good_page last = true → truthy (nextQuery last) = false →
  ∃ s1, step consumer (runAsStream_ d) Reading = Some s1 ∧
    let s := deliver consumer s1 (pages ++ last :: rest) in
    out s = map EvPush (all_items (pages ++ [last])) ++ [EvEnd] ∧
    calls s = query d :: (nextQuery <$> pages) ∧
    length (calls s) = S (length pages) ∧
    in_flight s = 0%nat.
Proof.
  intros Hm Hf Hg Hn.
  exists (originalMethod (query d) (start_reading (runAsStream_ d))).
  split; [done|].
  destruct (deliver_to_the_end pages last rest
    (originalMethod (query d) (start_reading (runAsStream_ d))))
    as (Ho & Hc & Hi & _); try done.
  cbn zeta. rewrite Ho, Hc. simpl. by rewrite length_fmap.
Qed.

End Traversal.

(** X2: in the aggregate mode a traversal without error calls the callback
    once, with all the items in order. *)
Theorem aggregate_success_calls_back_once (d : descriptor)
    (pages : list page) (last : page) (rest : list page) :
  truthy (callback d) = true → autoPaginate d = true →
  maxResults d < 0 →
  forallb flowing pages = true →
  good_page last = true → truthy (nextQuery last) = false →
  forallb object_page (pages ++ [last]) = true →
  callbacks (router_ d) (pages ++ last :: rest) =
    [CbResults (all_items (pages ++ [last]))] ∧
  fetches (router_ d) (pages ++ last :: rest) =
    query d :: (nextQuery <$> pages).
Proof.
  intros Hc Ha Hm Hf Hg Hn _. unfold router_. rewrite Hc, Ha.
  assert (step concat_consumer (on_error (runAsStream_ d)) Reading =
          Some (originalMethod (query d)
                  (start_reading (on_error (runAsStream_ d)))))
    as Hstep by done.
  unfold callbacks, fetches. rewrite Hstep.
  destruct (deliver_to_the_end concat_consumer (λ _, eq_refl) pages last rest
    (originalMethod (query d) (start_reading (on_error (runAsStream_ d)))))
    as (Ho & Hcalls & _); try done.
  rewrite Ho, Hcalls. split; [|done].
  simpl. by rewrite concat_pipe_pushes.
Qed.

Lemma unbounded_stream_emits_everything_witness :
  ∃ s1, step passive (runAsStream_ (stream_args (-1))) Reading = Some s1 ∧
    out (deliver passive s1 [page_a; page_bc; page_d]) =
      [EvPush item_a; EvPush item_b; EvPush item_c;
       EvPush item_d; EvEnd] ∧
    calls (deliver passive s1 [page_a; page_bc; page_d]) =
      [query1; query2; query3].
Proof.
  destruct (unbounded_stream_emits_everything passive (λ _, eq_refl)
    (stream_args (-1)) [page_a; page_bc] page_d [])
    as (s1 & Hs & Ho & Hc & _); [done..|].
  exists s1. split; [exact Hs|]. split; [exact Ho|exact Hc].
Defined.

Lemma aggregate_success_calls_back_once_witness :
  callbacks (router_ aggregate_args) [page_a; page_bc; page_d] =
    [CbResults [item_a; item_b; item_c; item_d]].
Proof.
  exact (proj1 (aggregate_success_calls_back_once aggregate_args
    [page_a; page_bc] page_d [] eq_refl eq_refl eq_refl eq_refl eq_refl eq_refl
    eq_refl)).
Defined.

(** ** A consumer that stops at the [j]-th item *)

Section StopAfter.

Variable j : nat.
Hypothesis j_positive : (0 < j)%nat.

(** X3: whatever the pages hold and whatever else happens, as long as
    the page fetches call back in a turn of their own, a consumer that
    ends the stream when it receives its [j]-th item is handed [j]
    items at most, and the flag is set from the [j]-th on. *)
Theorem stop_after_bounds_the_items (d : descriptor) (es : list event)
    (s : state) :
  forallb asynchronous es = true →
  run (stop_after j) (runAsStream_ d) es = Some s →
  (length (pushed (out s)) ≤ j)%nat ∧
  (length (pushed (out s)) = j → streamEnded s = true).
Proof.
  intros Ha Hrun.
  destruct (run_heeded (stop_after j) es _ _ Ha Hrun (heeded_init _ d))
    as [Hb Hl].
  split.
  - destruct (decide (length (pushed (out s)) ≤ j)%nat) as [|Hgt]; [done|].
    specialize (Hb j ltac:(lia)). unfold stop_after in Hb.
    rewrite length_take in Hb. case_bool_decide; [done|lia].
  - intros E. apply Hl.
    + intros E'. rewrite E' in E. simpl in E. lia.
    + unfold stop_after. by case_bool_decide.
Qed.

End StopAfter.

Lemma stop_after_bounds_the_items_witness :
  ∃ s, run (stop_after 2) (runAsStream_ (stream_args (-1)))
         [Reading; Result page_a; Result page_bc; Reading] = Some s ∧
       pushed (out s) = [item_a; item_b] ∧ calls s = [query1; query2] ∧
       (length (pushed (out s)) ≤ 2)%nat.
Proof.
  eexists. split; [reflexivity|]. split; [reflexivity|]. split; [reflexivity|].
  refine (proj1 (stop_after_bounds_the_items 2 _ (stream_args (-1))
    [Reading; Result page_a; Result page_bc; Reading] _ eq_refl eq_refl)).
  lia.
Defined.

(** ** More on the stream driver *)

Lemma emit_nonneg c items s :
  0 ≤ resultsToSend s → 0 ≤ resultsToSend (emit c items s).
Proof.
  revert s. induction items as [|v items IH]; intros s Hr; simpl; [done|].
  destruct (truthy v); simpl; [|done].
  destruct (resultsToSend s =? 0) eqn:E; simpl; [done|].
  destruct (streamEnded s); simpl; [done|].
  apply Z.eqb_neq in E. apply IH. unfold push.
  destruct (c _); simpl; lia.
Qed.

Lemma step_nonneg c s e s' :
  step c s e = Some s' → 0 ≤ resultsToSend s → 0 ≤ resultsToSend s'.
Proof.
  revert c s e s'.
  apply (step_closure (λ s s', 0 ≤ resultsToSend s → 0 ≤ resultsToSend s'));
    [tauto..|].
  intros c s e s' Ha. asynchronous_cases e Ha; simpl.
  - destruct (_ || _); by intros [= <-].
  - unfold result. destruct (in_flight s); [done|]. intros [= <-] Hr.
    unfold onResultSet. destruct (truthy (err p)).
    { simpl. by destruct (error_listener s). }
    pose proof (emit_nonneg c (results p) (called_back s) Hr).
    by repeat case_match.
  - by intros [= <-].
  - by intros [= <-].
Qed.

Lemma run_nonneg c s es s' :
  run c s es = Some s' → 0 ≤ resultsToSend s → 0 ≤ resultsToSend s'.
Proof.
  revert c es s s'.
  apply (run_closure (λ s s', 0 ≤ resultsToSend s → 0 ≤ resultsToSend s'));
    [tauto..|].
  apply step_nonneg.
Qed.

Section Cap.

Variable consumer : list value → bool.

(** X4: a stream with [maxResults = m], [m] an integer from 0 to 2^53
    (the integers that a JavaScript number counts down exactly), never
    pushes more than [m] items, whatever the pages hold (errors and
    falsy items included), whatever the consumer does and in whatever
    order things happen, fetches that call back at once included; its
    counter is [m] minus the number of items pushed and never goes below
    zero.  (Limits that are not integers are not modelled: a counter
    that starts at 1.5 steps over zero.) *)
Theorem cap_is_never_exceeded (d : descriptor) (es : list event) (s : state) :
  0 ≤ maxResults d ≤ 2 ^ 53 →
  run consumer (runAsStream_ d) es = Some s →
  Z.of_nat (length (pushed (out s))) ≤ maxResults d ∧
  resultsToSend s = maxResults d - Z.of_nat (length (pushed (out s))) ∧
  0 ≤ resultsToSend s.
Proof.
  intros Hm Hrun.
  pose proof (run_balance _ _ _ _ Hrun) as Hb. unfold balance in Hb.
  pose proof (run_nonneg _ _ _ _ Hrun (proj1 Hm)) as Hn. simpl in Hb. lia.
Qed.

End Cap.

Lemma cap_is_never_exceeded_witness :
  ∃ s, run passive (runAsStream_ (stream_args 2))
         [Reading; Result page_a; Result page_bc] = Some s ∧
       Z.of_nat (length (pushed (out s))) ≤ 2.
Proof.
  eexists. split; [reflexivity|].
  refine (proj1 (cap_is_never_exceeded passive (stream_args 2)
    [Reading; Result page_a; Result page_bc] _ _ eq_refl)).
  simpl. lia.
Defined.

Lemma snoc_eq_middle {A} (l o1 o2 : list A) (c x : A) :
  l ++ [c] = o1 ++ x :: o2 →
  (o2 = [] ∧ c = x ∧ l = o1) ∨ (∃ o2', o2 = o2' ++ [c] ∧ l = o1 ++ x :: o2').
Proof.
  destruct o2 as [|y o2 _] using rev_ind.
  - intros H. change (o1 ++ [x]) with (o1 ++ [x]) in H.
    apply app_inj_tail in H as [-> ->]. by left.
  - intros H. rewrite app_comm_cons, app_assoc in H.
    apply app_inj_tail in H as [-> ->]. right. by exists o2.
Qed.

Lemma pushed_snoc_other o c :
  (∀ v, c ≠ EvPush v) → pushed (o ++ [c]) = pushed o.
Proof.
  intros H. rewrite pushed_app. destruct c; simpl; [by destruct (H v)|..];
    by rewrite app_nil_r.
Qed.

Lemma end_discipline_init d : end_discipline (runAsStream_ d).
Proof.
  split; simpl; [intros _; apply not_elem_of_nil|].
  intros [|] ? H; discriminate.
Qed.

(** Logging an [end] or an error keeps the discipline, provided the flag
    is set when it is an [end]. *)
Lemma log_other_discipline x s :
  (∀ v, x ≠ EvPush v) → (x = EvEnd → streamEnded s = true) →
  end_discipline s → end_discipline (log x s).
Proof.
  intros Hc He [H1 H2]. split; simpl.
  - intros Hf. rewrite elem_of_app, list_elem_of_singleton.
    intros [Hin|Heq]; [by apply (H1 Hf)|]. rewrite He in Hf; done.
  - intros o1 o2 Ho. apply snoc_eq_middle in Ho as [(-> & _ & _)|(o2' & -> & Ho)].
    + done.
    + rewrite pushed_snoc_other by done. by eapply H2.
Qed.

Lemma stream_end_discipline s : end_discipline s → end_discipline (stream_end s).
Proof.
  intros [H1 H2]. unfold stream_end.
  apply log_other_discipline; [done|done|].
  split; simpl; [done|exact H2].
Qed.

Lemma push_discipline c v s :
  streamEnded s = false →
  end_discipline s → end_discipline (decrement (push c v s)).
Proof.
  intros Hf [H1 H2].
  assert (end_discipline (log (EvPush v) s)) as Hl.
  { split; simpl.
    - intros _. rewrite elem_of_app, list_elem_of_singleton.
      intros [Hin|?]; [by apply (H1 Hf)|done].
    - intros o1 o2 Ho. apply snoc_eq_middle in Ho as [(_ & ? & _)|(o2' & _ & Ho)];
        [done|]. destruct (H1 Hf). rewrite Ho.
      rewrite elem_of_app, elem_of_cons. auto. }
  unfold push. destruct (c _).
  - destruct (stream_end_discipline _ Hl). by split.
  - destruct Hl. by split.
Qed.

Lemma emit_discipline c items s :
  end_discipline s → end_discipline (emit c items s).
Proof.
  revert s. induction items as [|v items IH]; intros s Hd; simpl; [done|].
  destruct (truthy v); simpl; [|done].
  destruct (resultsToSend s =? 0); simpl; [done|].
  destruct (streamEnded s) eqn:He; simpl; [done|].
  by apply IH, push_discipline.
Qed.

Lemma step_discipline c s e s' :
  step c s e = Some s' → end_discipline s → end_discipline s'.
Proof.
  revert c s e s'.
  apply (step_closure (λ s s', end_discipline s → end_discipline s'));
    [tauto..|].
  intros c s e s' Ha Hs Hd. asynchronous_cases e Ha; simpl in Hs.
  - destruct (_ || _); injection Hs as <-; [done|].
    destruct Hd. by split.
  - unfold result in Hs. destruct (in_flight s); [done|]. injection Hs as <-.
    assert (end_discipline (called_back s)) as Hd' by (destruct Hd; by split).
    unfold onResultSet. destruct (truthy (err p)).
    + cbn zeta. destruct (error_listener _);
        [apply stream_end_discipline|]; apply log_other_discipline; done.
    + pose proof (emit_discipline c (results p) _ Hd') as Hd2.
      repeat case_match; try done; try by apply stream_end_discipline.
      destruct Hd2. by split.
  - injection Hs as <-. by apply stream_end_discipline.
  - injection Hs as <-. destruct Hd. by split.
Qed.

Lemma run_discipline c s es s' :
  run c s es = Some s' → end_discipline s → end_discipline s'.
Proof.
  revert c es s s'.
  apply (run_closure (λ s s', end_discipline s → end_discipline s'));
    [tauto..|].
  apply step_discipline.
Qed.

Section EndDiscipline.

Variable consumer : list value → bool.

(** X5: nothing is ever pushed on a stream after [end] was called on
    it, by the driver or by the consumer: in the record of what was done
    to the stream, no push follows an [end], whatever the pages, the
    consumer and the order of events, fetches that call back at once
    included. *)
Theorem no_push_after_end (d : descriptor) (es : list event) (s : state)
    (o1 o2 : list stream_call) :
  run consumer (runAsStream_ d) es = Some s →
  out s = o1 ++ EvEnd :: o2 →
  pushed o2 = [] ∧ streamEnded s = true.
Proof.
  intros Hrun Ho.
  destruct (run_discipline _ _ _ _ Hrun (end_discipline_init d)) as [H1 H2].
  split; [by eapply H2|].
  destruct (streamEnded s) eqn:E; [done|].
  destruct (H1 eq_refl). rewrite Ho, elem_of_app, elem_of_cons. auto.
Qed.

End EndDiscipline.

Lemma no_push_after_end_witness :
  ∃ s, run (stop_after 1) (runAsStream_ (stream_args (-1)))
         [Reading; Result page_bc; ConsumerEnd] = Some s ∧
       out s = [EvPush item_b] ++ EvEnd :: [EvEnd] ∧
       pushed [EvEnd] = [].
Proof.
  eexists. split; [reflexivity|]. split; [reflexivity|].
  exact (proj1 (no_push_after_end (stop_after 1) (stream_args (-1))
    [Reading; Result page_bc; ConsumerEnd] _ [EvPush item_b] [EvEnd]
    eq_refl eq_refl)).
Defined.

Section Prefixes.

Variable consumer : list value → bool.

Lemma push_pushed v s :
  pushed (out (decrement (push consumer v s))) = pushed (out s) ++ [v].
Proof.
  unfold push. destruct (consumer _); simpl; rewrite !pushed_app; simpl;
    by rewrite ?app_nil_r.
Qed.

Lemma emit_prefix items s :
  ∃ pre, pre `prefix_of` items ∧
         pushed (out (emit consumer items s)) = pushed (out s) ++ pre.
Proof.
  revert s. induction items as [|v items IH]; intros s; simpl.
  - exists []. by rewrite app_nil_r.
  - destruct (_ && _).
    + destruct (IH (decrement (push consumer v s))) as (pre & Hp & ->).
      exists (v :: pre). split; [by apply prefix_cons|].
      by rewrite push_pushed, <- app_assoc.
    + exists []. split; [apply prefix_nil|by rewrite app_nil_r].
Qed.

Lemma onResultSet_prefix p s :
  ∃ pre, pre `prefix_of` results p ∧
         pushed (out (onResultSet consumer p s)) = pushed (out s) ++ pre.
Proof.
  unfold onResultSet. destruct (truthy (err p)).
  - exists []. split; [apply prefix_nil|]. simpl.
    destruct (error_listener s); simpl; by rewrite !pushed_app, !app_nil_r.
  - destruct (emit_prefix (results p) s) as (pre & Hp & He).
    exists pre. split; [done|].
    repeat case_match; simpl; rewrite ?pushed_app, ?app_nil_r; done.
Qed.

(** X6: whatever the consumer, the cap and the pages, what a stream
    pushes while pages are delivered is, page after page in the order of
    the fetches, an initial part of the items of each page in the order
    of the page: items are never invented, repeated, reordered or taken
    from the middle of a page. *)
Theorem pushed_items_are_page_prefixes (s : state) (pages : list page) :
  ∃ parts,
    Forall2 (λ part p, part `prefix_of` results p) parts pages ∧
    pushed (out (deliver consumer s pages)) = pushed (out s) ++ concat parts.
Proof.
  revert s. induction pages as [|p pages IH]; intros s.
  { exists []. split; [constructor|]. simpl. by rewrite app_nil_r. }
  cbn [deliver]. unfold result. destruct (in_flight s) eqn:Ei.
  - exists (replicate (S (length pages)) []). split.
    + apply Forall2_same_length_lookup_2; [by rewrite length_replicate|].
      intros i part q Hpart _. apply lookup_replicate in Hpart as [-> _].
      apply prefix_nil.
    + assert (∀ n, concat (replicate n (@nil value)) = []) as ->
        by (intros n; induction n; simpl; done).
      by rewrite app_nil_r.
  - destruct (onResultSet_prefix p (called_back s)) as (part & Hp & Ho).
    destruct (IH (onResultSet consumer p (called_back s))) as (parts & Hps & ->).
    exists (part :: parts). split; [by constructor|].
    rewrite Ho. simpl. by rewrite <- app_assoc.
Qed.

End Prefixes.

(** X7: in stream mode with no cap and a consumer that only reads, when
    a page fetch fails after pages that went through, the items of those
    pages stay pushed and [emit('error', err)] is called once; whatever
    items the failed result carries are not pushed, and no fetch is
    issued after the failed one.  When the consumer has attached an
    ['error'] listener, the stream is then ended.  When it has not, the
    emit throws and the handler is left before it ends the stream: the
    stream stays open, with no fetch in flight. *)
Theorem stream_error_stops_the_traversal (consumer : list value → bool)
    (d : descriptor) (pages : list page) (failed : page) (rest : list page) :
  (∀ received, consumer received = false) →
  maxResults d < 0 →
  forallb flowing pages = true → truthy (err failed) = true →
  (∃ s1, run consumer (runAsStream_ d) [OnError; Reading] = Some s1 ∧
     let s := deliver consumer s1 (pages ++ failed :: rest) in
     out s = map EvPush (all_items pages) ++ [EvError (err failed); EvEnd] ∧
     calls s = query d :: (nextQuery <$> pages) ∧
     in_flight s = 0%nat ∧ streamEnded s = true) ∧
  (∃ s1, run consumer (runAsStream_ d) [Reading] = Some s1 ∧
     let s := deliver consumer s1 (pages ++ failed :: rest) in
     out s = map EvPush (all_items pages) ++ [EvError (err failed)] ∧
     calls s = query d :: (nextQuery <$> pages) ∧
     in_flight s = 0%nat ∧ streamEnded s = false).
Proof.
  intros Hp Hm Hf He. split.
  - exists (originalMethod (query d) (start_reading (on_error (runAsStream_ d)))).
    split; [done|].
    by apply (deliver_failure consumer Hp pages failed rest).
  - exists (originalMethod (query d) (start_reading (runAsStream_ d))).
    split; [done|].
    by apply (deliver_failure_thrown consumer Hp pages failed rest).
Qed.

Lemma stream_error_stops_the_traversal_witness :
  (∃ s1, run passive (runAsStream_ (stream_args (-1))) [OnError; Reading] = Some s1 ∧
     out (deliver passive s1 [page_a; Page failure [item_b] query3 VNull; page_d]) =
       [EvPush item_a; EvError failure; EvEnd]) ∧
  (∃ s1, run passive (runAsStream_ (stream_args (-1))) [Reading] = Some s1 ∧
     out (deliver passive s1 [page_a; Page failure [item_b] query3 VNull; page_d]) =
       [EvPush item_a; EvError failure]).
Proof.
  destruct (stream_error_stops_the_traversal passive (stream_args (-1)) [page_a]
    (Page failure [item_b] query3 VNull) [page_d])
    as [(s1 & Hs & Ho & _) (s2 & Hs2 & Ho2 & _)]; [done..|].
  split; [exists s1|exists s2]; by split.
Defined.

Section Falsy.

Variable consumer : list value → bool.

Lemma emit_falsy pre v post s :
  truthy v = false →
  emit consumer (pre ++ v :: post) s = emit consumer pre s.
Proof.
  intros Hv. revert s. induction pre as [|w pre IH]; intros s; simpl.
  - by rewrite Hv.
  - destruct (_ && _); [apply IH|done].
Qed.

(** X8: a page is handled as if it stopped at its first item that is
    not truthy (0, the empty string, false, null, undefined): that item
    and the items after it in the page are never pushed, and the handler
    goes on with the fetch of the next page or the end as it would for
    the shorter page. *)
Theorem falsy_item_cuts_the_page (p : page) (pre post : list value)
    (v : value) (s : state) :
  results p = pre ++ v :: post → truthy v = false →
  onResultSet consumer p s =
  onResultSet consumer (Page (err p) pre (nextQuery p) (apiResponse p)) s.
Proof.
  intros Hr Hv. unfold onResultSet. simpl. rewrite Hr.
  by rewrite emit_falsy.
Qed.

(** X9: with [maxResults = 0] the first read still issues the fetch;
    when its result comes without error nothing is pushed and the stream
    is ended, whatever the page holds. *)
Theorem zero_cap_fetches_once (d : descriptor) (p : page) :
  maxResults d = 0 → truthy (err p) = false →
  ∃ s, run consumer (runAsStream_ d) [Reading; Result p] = Some s ∧
       out s = [EvEnd] ∧ calls s = [query d] ∧ in_flight s = 0%nat.
Proof.
  intros Hm He. eexists. split; [reflexivity|].
  unfold onResultSet. rewrite He.
  assert (∀ s, resultsToSend s = 0 → emit consumer (results p) s = s) as Hemit.
  { intros s Hs. destruct (results p); simpl; [done|].
    by rewrite Hs, andb_false_r. }
  rewrite Hemit by done. simpl. rewrite Hm. done.
Qed.

End Falsy.

Lemma falsy_item_cuts_the_page_witness :
  onResultSet passive (Page VNull [item_a; VNum 0; item_b] query2 VNull)
    (originalMethod query1 (start_reading (runAsStream_ (stream_args (-1))))) =
  onResultSet passive (Page VNull [item_a] query2 VNull)
    (originalMethod query1 (start_reading (runAsStream_ (stream_args (-1))))).
Proof.
  exact (falsy_item_cuts_the_page passive
    (Page VNull [item_a; VNum 0; item_b] query2 VNull) [item_a] [item_b] (VNum 0)
    _ eq_refl eq_refl).
Defined.

Lemma zero_cap_fetches_once_witness :
  ∃ s, run passive (runAsStream_ (stream_args 0)) [Reading; Result page_bc] = Some s ∧
       out s = [EvEnd] ∧ calls s = [query1].
Proof.
  destruct (zero_cap_fetches_once passive (stream_args 0) page_bc eq_refl eq_refl)
    as (s & Hs & Ho & Hc & _).
  exists s. by repeat split.
Defined.

Section EndedEarly.

Variable consumer : list value → bool.

Lemma step_ended_early s e s' :
  step consumer s e = Some s' → ended_early s →
  ended_early s' ∧ ∀ p, e ≠ Result p.
Proof.
  intros Hs [He Hn Hr Hc Hi]. destruct e as [|p| |pages|]; simpl in Hs.
  - rewrite He, orb_true_r in Hs. injection Hs as <-. by split.
  - unfold result in Hs. by rewrite Hi in Hs.
  - injection Hs as <-. split; [|done]. split; simpl; try done.
    by rewrite pushed_app, Hn.
  - rewrite He, orb_true_r in Hs. injection Hs as <-. by split.
  - injection Hs as <-. by split.
Qed.

(** X10: when the consumer ends the stream before it has read, the
    stream never fetches: whatever happens afterwards (reads, more calls
    of [end], listeners) no fetch is issued, so that no result can
    arrive, and nothing is pushed. *)
Theorem end_before_reading (d : descriptor) (es : list event) (s : state) :
  run consumer (runAsStream_ d) (ConsumerEnd :: es) = Some s →
  calls s = [] ∧ in_flight s = 0%nat ∧ reading s = false ∧
  pushed (out s) = [] ∧ streamEnded s = true ∧
  ∀ p, Result p ∉ es.
Proof.
  cbn [run step mbind option_bind]. intros Hrun.
  assert (∀ es s0 s1, run consumer s0 es = Some s1 → ended_early s0 →
            ended_early s1 ∧ ∀ p, Result p ∉ es) as Hind.
  { clear. intros es. induction es as [|e es IH]; intros s0 s1; simpl.
    - intros [= <-] H. split; [done|]. intros p. apply not_elem_of_nil.
    - destruct (step consumer s0 e) as [s2|] eqn:E; simpl; [|done].
      intros H Hd.
      destruct (step_ended_early _ _ _ E Hd) as [Hd2 Hne].
      destruct (IH _ _ H Hd2) as [Hd1 Hr]. split; [done|].
      intros p [E'|Hin]%elem_of_cons;
        [by destruct (Hne p)|by destruct (Hr p)]. }
  destruct (Hind _ _ _ Hrun) as [[He Hn Hr Hc Hi] Hres]; [by split|].
  done.
Qed.

End EndedEarly.

Lemma end_before_reading_witness :
  ∃ s, run passive (runAsStream_ (stream_args (-1)))
         (ConsumerEnd :: [Reading; ReadingSync [page_a]; OnError]) = Some s ∧
       pushed (out s) = [] ∧ calls s = [].
Proof.
  eexists. split; [reflexivity|].
  destruct (end_before_reading passive (stream_args (-1))
              [Reading; ReadingSync [page_a]; OnError] _ eq_refl)
    as (Hc & _ & _ & Hp & _).
  by split.
Defined.

(** ** More on the call normalizer and the extended methods *)

Lemma parse_query_falsy h args :
  truthy (query_arg args) = false →
  parseArguments_ h args =
    (<[fresh (dom h) := ∅]> h,
     Descriptor (VObj (fresh (dom h))) (callback_arg args) (-1) true).
Proof.
  intros Hf. pose proof (parse_callback h args) as Hc.
  pose proof (parse_maxResults h args) as Hm.
  pose proof (parse_autoPaginate h args) as Ha.
  assert (util_is (query_arg args) "object" = false) as Ho.
  { destruct (util_is (query_arg args) "object") eqn:E; [|done].
    apply util_is_object_truthy in E. congruence. }
  unfold limit_of in Hm. rewrite Ho in Hm, Ha. simpl in Ha.
  assert ((parseArguments_ h args).1 = <[fresh (dom h) := ∅]> h ∧
          query (parseArguments_ h args).2 = VObj (fresh (dom h))) as Hq.
  { unfold parseArguments_. fold (query_arg args). by rewrite Hf. }
  destruct (parseArguments_ h args) as [h' [q c m a]]. simpl in *.
  destruct Hq. by subst.
Qed.

(** X11: the normalizer changes no object that exists.  When the first
    argument is truthy and not a function, the query of the descriptor
    is that very value (for an object, the caller's own object, not a
    copy) and the heap is as it was; otherwise the query is a new empty
    object, the limit is -1 and auto-pagination is on. *)
Theorem parseArguments_keeps_the_heap (h : heap) (args : list value) :
  h ⊆ (parseArguments_ h args).1 ∧
  (truthy (query_arg args) = true →
     (parseArguments_ h args).1 = h ∧
     query (parseArguments_ h args).2 = query_arg args) ∧
  (truthy (query_arg args) = false →
     ∃ l, h !! l = None ∧
          parseArguments_ h args =
            (<[l := ∅]> h, Descriptor (VObj l) (callback_arg args) (-1) true)).
Proof.
  destruct (truthy (query_arg args)) eqn:Et.
  - rewrite (parse_query_truthy h args Et). simpl. split; [done|].
    split; [done|]. intros; discriminate.
  - rewrite (parse_query_falsy h args Et). simpl.
    assert (h !! fresh (dom h) = None) as Hf by apply (alloc_fresh h ∅).
    split; [by apply insert_subseteq|]. split; [intros; discriminate|].
    intros _. by exists (fresh (dom h)).
Qed.

Lemma callback_arg_truthy args :
  truthy (callback_arg args) = true ↔
  util_is (arg args 0) "function" = true ∨
  util_is (lastArgument args) "function" = true.
Proof.
  unfold callback_arg.
  destruct (util_is (lastArgument args) "function") eqn:E1.
  { split; [auto|]. intros _. by destruct (lastArgument args). }
  destruct (util_is (arg args 0) "function") eqn:E2.
  { split; [auto|]. intros _. by destruct (arg args 0). }
  simpl. split; [done|]. intros [?|?]; done.
Qed.

(** X12: an extended method returns a stream exactly when neither its
    first nor its last argument is a function (a function passed in the
    middle is not seen).  The stream is then the one of [runAsStream_]
    for the parsed arguments: its cap is the limit read off the query,
    and [autoPaginate: false] in the query has no effect. *)
Theorem stream_mode_iff_no_callback (h : heap) (args : list value) :
  let d := (parseArguments_ h args).2 in
  let r := (extended_method h args).2 in
  ((∃ s, r = Streaming s) ↔
     util_is (arg args 0) "function" = false ∧
     util_is (lastArgument args) "function" = false) ∧
  (∀ s, r = Streaming s →
     s = runAsStream_ d ∧ autoPaginate d = true ∧
     resultsToSend s = limit_of h (query_arg args)).
Proof.
  cbv zeta. unfold extended_method.
  pose proof (parse_callback h args) as Hc.
  pose proof (parse_autoPaginate h args) as Ha.
  pose proof (parse_maxResults h args) as Hm.
  pose proof (callback_arg_truthy args) as Ht.
  remember (parseArguments_ h args) as pd eqn:Ep. destruct pd as [h' d].
  cbn [fst snd] in *. unfold router_. rewrite Hc.
  destruct (truthy (callback_arg args)) eqn:Et.
  - split.
    + split.
      * intros [s Hs]. by destruct (autoPaginate d).
      * intros [H1 H2]. destruct (proj1 Ht eq_refl); congruence.
    + intros s Hs. by destruct (autoPaginate d).
  - split.
    + split; [|by eauto]. intros _.
      destruct (util_is (arg args 0) "function") eqn:E1;
        [discriminate (proj2 Ht (or_introl eq_refl))|].
      destruct (util_is (lastArgument args) "function") eqn:E2;
        [discriminate (proj2 Ht (or_intror eq_refl))|]. done.
    + intros s [= <-]. split; [done|]. split; [|done].
      rewrite Ha. by rewrite andb_false_r.
Qed.

(** X13: a string query is passed through unexamined: the heap is as it
    was, the limit is -1 and auto-pagination is on, so with a callback
    the call always runs in the aggregate mode. *)
Theorem string_query_is_not_examined (h : heap) (q : string) (rest : list value) :
  q ≠ ""%string →
  let args := VStr q :: rest in
  parseArguments_ h args = (h, Descriptor (VStr q) (callback_arg args) (-1) true) ∧
  extended_method h args =
    (h, if truthy (callback_arg args)
        then Aggregate (callback_arg args)
               (runAsStream_ (Descriptor (VStr q) (callback_arg args) (-1) true))
        else Streaming
               (runAsStream_ (Descriptor (VStr q) (callback_arg args) (-1) true))).
Proof.
  intros Hq args.
  assert (truthy (query_arg args) = true) as Ht.
  { simpl. destruct (String.eqb_spec q ""); done. }
  assert (parseArguments_ h args =
            (h, Descriptor (VStr q) (callback_arg args) (-1) true)) as Hp.
  { rewrite (parse_query_truthy h args Ht). rewrite parse_autoPaginate. done. }
  split; [done|]. unfold extended_method. rewrite Hp. done.
Qed.

Lemma string_query_is_not_examined_witness :
  extended_method sample_heap [VStr "SELECT 1"; VFun 0] =
    (sample_heap,
     Aggregate (VFun 0) (runAsStream_ (Descriptor (VStr "SELECT 1") (VFun 0) (-1) true))).
Proof.
  exact (proj2 (string_query_is_not_examined sample_heap "SELECT 1" [VFun 0]
                  ltac:(discriminate))).
Defined.

Lemma aggregate_run_succeeds (d : descriptor) (pages : list page)
    (last : page) (rest : list page) :
  truthy (callback d) = true → autoPaginate d = true → maxResults d < 0 →
  forallb flowing pages = true →
  good_page last = true → truthy (nextQuery last) = false →
  callbacks (router_ d) (pages ++ last :: rest) =
    [CbResults (all_items (pages ++ [last]))] ∧
  fetches (router_ d) (pages ++ last :: rest) = query d :: (nextQuery <$> pages).
Proof.
  intros Hc Ha Hm Hf Hg Hn. unfold router_. rewrite Hc, Ha.
  assert (step concat_consumer (on_error (runAsStream_ d)) Reading =
          Some (originalMethod (query d)
                  (start_reading (on_error (runAsStream_ d)))))
    as Hstep by done.
  unfold callbacks, fetches. rewrite Hstep.
  destruct (deliver_to_the_end concat_consumer (λ _, eq_refl) pages last rest
    (originalMethod (query d) (start_reading (on_error (runAsStream_ d)))))
    as (Ho & Hcalls & _); try done.
  rewrite Ho, Hcalls. split; [|done].
  simpl. by rewrite concat_pipe_pushes.
Qed.

(** X14: a call with the callback alone runs in the aggregate mode on a
    new empty query object: over pages that succeed and hang together
    the callback is called once, with all the items in order, and the
    first fetch is given the new empty object. *)
Theorem callback_only_call_aggregates (h : heap) (f : nat)
    (pages : list page) (last : page) (rest : list page) :
  forallb flowing pages = true →
  good_page last = true → truthy (nextQuery last) = false →
  forallb object_page (pages ++ [last]) = true →
  ∃ l r,
    h !! l = None ∧
    extended_method h [VFun f] = (<[l := ∅]> h, r) ∧
    callbacks r (pages ++ last :: rest) =
      [CbResults (all_items (pages ++ [last]))] ∧
    fetches r (pages ++ last :: rest) = VObj l :: (nextQuery <$> pages).
Proof.
  intros Hf Hg Hn Ho.
  exists (fresh (dom h)), (router_ (Descriptor (VObj (fresh (dom h))) (VFun f) (-1) true)).
  split; [apply (alloc_fresh h ∅)|].
  split.
  { unfold extended_method. by rewrite (parse_query_falsy h [VFun f]). }
  by apply (aggregate_run_succeeds
              (Descriptor (VObj (fresh (dom h))) (VFun f) (-1) true) pages last rest).
Qed.

Lemma callback_only_call_aggregates_witness :
  ∃ l r,
    sample_heap !! l = None ∧
    extended_method sample_heap [VFun 0] = (<[l := ∅]> sample_heap, r) ∧
    callbacks r [page_a; page_bc; page_d] =
      [CbResults [item_a; item_b; item_c; item_d]].
Proof.
  destruct (callback_only_call_aggregates sample_heap 0 [page_a; page_bc] page_d [])
    as (l & r & Hl & He & Hc & _); [done..|].
  exists l, r. by repeat split.
Defined.

(** ** More on the BigQuery methods *)

Lemma get_stable (h h' : heap) l k :
  is_Some (h !! l) → h ⊆ h' → get h' (VObj l) k = get h (VObj l) k.
Proof. intros [o Ho] Hs. simpl. by rewrite (lookup_weaken _ _ _ _ Ho Hs), Ho. Qed.

Lemma get_stable_known (h h' : heap) v k :
  known_object h v → h ⊆ h' → get h' v k = get h v k.
Proof. intros (l & -> & Hl) Hs. by apply get_stable. Qed.

Lemma get_set_eq (h : heap) l k v :
  is_Some (h !! l) → get (set h l k v) (VObj l) k = v.
Proof.
  intros [o Ho]. simpl. unfold set. rewrite lookup_alter_eq, Ho. simpl.
  by rewrite lookup_insert_eq.
Qed.

Lemma get_set_ne (h : heap) l k k' v :
  k ≠ k' → get (set h l k v) (VObj l) k' = get h (VObj l) k'.
Proof.
  intros Hk. simpl. unfold set. rewrite lookup_alter_eq.
  destruct (h !! l) as [o|]; simpl; [|done]. by rewrite lookup_insert_ne.
Qed.

Lemma get_set_other (h : heap) l l' k k' v :
  l ≠ l' → get (set h l k v) (VObj l') k' = get h (VObj l') k'.
Proof. intros Hl. simpl. unfold set. by rewrite lookup_alter_ne. Qed.

Lemma set_is_Some (h : heap) l l' k v :
  is_Some (h !! l') → is_Some (set h l k v !! l').
Proof. intros H. unfold set. by apply lookup_alter_is_Some. Qed.

(** What the constructor of Job makes. *)
Lemma Job_fields (h : heap) (bq id : value) :
  h !! (BigQuery.Job h bq id).2 = None ∧
  h ⊆ (BigQuery.Job h bq id).1 ∧
  is_Some ((BigQuery.Job h bq id).1 !! (BigQuery.Job h bq id).2) ∧
  get (BigQuery.Job h bq id).1 (VObj (BigQuery.Job h bq id).2) "bigQuery" = bq ∧
  get (BigQuery.Job h bq id).1 (VObj (BigQuery.Job h bq id).2) "id" = id ∧
  known_object (BigQuery.Job h bq id).1
    (get (BigQuery.Job h bq id).1 (VObj (BigQuery.Job h bq id).2) "metadata").
Proof.
  destruct (Job_frame h h bq id (reflexivity h)) as [Hf Hs].
  split; [done|]. split; [done|].
  unfold BigQuery.Job, alloc. cbn zeta beta iota. cbn [fst snd].
  set (l := fresh (dom h)).
  set (h1 := <[l := ∅]> h).
  set (h2 := set (set h1 l "bigQuery" bq) l "id" id).
  set (m := fresh (dom h2)).
  assert (is_Some (h1 !! l)) as H1 by (unfold h1; rewrite lookup_insert_eq; eauto).
  assert (is_Some (h2 !! l)) as H2 by (by do 2 apply set_is_Some).
  assert (h2 !! m = None) as Hm by apply (alloc_fresh h2 ∅).
  assert (l ≠ m) as Hlm.
  { intros E. rewrite E, Hm in H2. by destruct H2. }
  assert (h2 ⊆ <[m := ∅]> h2) as Hs2 by (by apply insert_subseteq).
  assert (is_Some (<[m := ∅]> h2 !! l)) as H3.
  { rewrite lookup_insert_ne by done. exact H2. }
  split; [by apply set_is_Some|].
  split; [|split].
  - rewrite get_set_ne by done. rewrite (get_stable h2) by done.
    unfold h2. rewrite get_set_ne by done. by apply get_set_eq.
  - rewrite get_set_ne by done. rewrite (get_stable h2) by done.
    unfold h2. apply get_set_eq. by apply set_is_Some.
  - rewrite get_set_eq by done. exists m. split; [done|].
    apply set_is_Some. rewrite lookup_insert_eq. eauto.
Qed.

Lemma wrap_jobs_items (that : value) (jobs : list value) : ∀ h0 h,
  Forall (known_object h0) jobs → h0 ⊆ h →
  ∃ h' items,
    BigQuery.wrap_jobs h that jobs = Some (h', items) ∧ h ⊆ h' ∧
    Forall2 (λ j item, ∃ l, item = VObj l ∧ h !! l = None ∧
                            get h' item "bigQuery" = that ∧
                            get h' item "id" = get h0 j "id" ∧
                            get h' item "metadata" = j) jobs items ∧
    NoDup items.
Proof.
  induction jobs as [|j js IH]; intros h0 h Hk Hs.
  { exists h, []. repeat split; try done; constructor. }
  apply Forall_cons in Hk as [Hj Hk].
  cbn [BigQuery.wrap_jobs]. rewrite read_some;
    [|by destruct Hj as (? & -> & _)..].
  cbn [mbind option_bind].
  rewrite (get_stable_known h0 h j "id" Hj Hs).
  destruct (Job_fields h that (get h0 j "id")) as (Hf & Hsub & Hsome & Hbq & Hid & _).
  destruct (BigQuery.Job h that (get h0 j "id")) as [h1 job]. cbn [fst snd] in *.
  assert (h ⊆ set h1 job "metadata" j) as Hs1 by (by apply set_frame).
  destruct (IH h0 (set h1 job "metadata" j) Hk) as (h' & items & -> & Hs' & Hall & Hnd).
  { by etrans. }
  cbn [mbind option_bind].
  exists h', (VObj job :: items). split; [done|]. split; [by etrans|].
  assert (is_Some (set h1 job "metadata" j !! job)) as Hsome' by (by apply set_is_Some).
  split.
  - constructor.
    + exists job. split; [done|]. split; [done|].
      rewrite !(get_stable _ h' job) by done.
      rewrite !get_set_ne by done. rewrite get_set_eq by done. done.
    + eapply Forall2_impl; [exact Hall|]. intros j' item (l & -> & Hl & H1 & H2 & H3).
      exists l. split; [done|]. split; [|done].
      destruct (h !! l) eqn:E; [|done].
      eapply lookup_weaken in E; [|exact Hs1]. congruence.
  - constructor; [|done]. intros Hin.
    apply list_elem_of_lookup in Hin as [i Hi].
    destruct (Forall2_lookup_r _ _ _ _ _ Hall Hi) as (j' & _ & (l & Heq & Hl & _)).
    injection Heq as <-. destruct Hsome' as [x Hx]. congruence.
Qed.

(** X15: on a successful response [getJobs] hands to its callback one
    new Job object per job resource, in the order of the resources, no
    two the same; each holds the client, the [id] of its resource and
    the resource itself as [metadata].  No object that existed is
    changed. *)
Theorem getJobs_items_are_new_jobs (h : heap) (that options resp : value)
    (jobs : list value) :
  Forall (known_object h) jobs → ¬ nullish resp →
  ∃ h' items nextQuery,
    BigQuery.getJobs_response h that options VNull resp jobs =
      Some (h', BigQuery.Reply VNull (Some items) nextQuery resp) ∧
    h ⊆ h' ∧
    Forall2 (job_for h h' that) jobs items ∧
    NoDup items.
Proof.
  intros Hk Hr. unfold BigQuery.getJobs_response. cbn [truthy].
  rewrite read_some by (intros ->; apply Hr; unfold nullish; auto).
  cbn [mbind option_bind].
  pose proof (next_query_frame h h options (get h resp "nextPageToken")
                (reflexivity h)) as Hs.
  destruct (BigQuery.next_query h options _) as [h1 nq]. cbn [fst] in Hs.
  destruct (wrap_jobs_items that jobs h h1 Hk Hs) as (h' & items & -> & Hs' & Hall & Hnd).
  cbn [mbind option_bind]. exists h', items, nq.
  split; [done|]. split; [by etrans|]. split; [|done].
  eapply Forall2_impl; [exact Hall|].
  intros j item (l & -> & Hl & H1 & H2 & H3). exists l.
  split; [done|]. split; [|done].
  destruct (h !! l) eqn:E; [|done].
  eapply lookup_weaken in E; [|exact Hs]. congruence.
Qed.

Lemma getJobs_items_are_new_jobs_witness :
  ∃ h' items nextQuery,
    BigQuery.getJobs_response sample_heap (VObj 5%positive) (VObj 1%positive)
      VNull (VObj 2%positive) [VObj 8%positive; VObj 8%positive] =
      Some (h', BigQuery.Reply VNull (Some items) nextQuery (VObj 2%positive)) ∧
    Forall2 (job_for sample_heap h' (VObj 5%positive))
      [VObj 8%positive; VObj 8%positive] items ∧
    NoDup items.
Proof.
  destruct (getJobs_items_are_new_jobs sample_heap (VObj 5%positive)
    (VObj 1%positive) (VObj 2%positive) [VObj 8%positive; VObj 8%positive])
    as (h' & items & nq & H1 & _ & H2 & H3).
  - repeat apply Forall_cons_2; [..|apply Forall_nil_2];
      (exists 8%positive; split; [done|]; by eexists).
  - intros [?|?]; discriminate.
  - exists h', items, nq. by repeat split.
Defined.

Lemma read_nullish h v k : read h v k = None ↔ nullish v.
Proof.
  unfold nullish. destruct v; simpl; split; try done; try (by auto);
    intros [?|?]; discriminate.
Qed.

Lemma wrap_jobs_None (that : value) (jobs : list value) : ∀ h,
  BigQuery.wrap_jobs h that jobs = None ↔ Exists nullish jobs.
Proof.
  induction jobs as [|j js IH]; intros h.
  { simpl. split; [done|]. intros H. inversion H. }
  cbn [BigQuery.wrap_jobs]. rewrite Exists_cons.
  destruct (read h j "id") as [id|] eqn:E.
  - cbn [mbind option_bind].
    destruct (BigQuery.Job h that id) as [h1 job].
    specialize (IH (set h1 job "metadata" j)).
    destruct (BigQuery.wrap_jobs _ that js) as [[h2 rest]|]; cbn [mbind option_bind].
    + split; [done|]. intros [Hn|He].
      * apply (read_nullish h j "id") in Hn. congruence.
      * by apply IH in He.
    + split; [|done]. intros _. right. by apply IH.
  - cbn [mbind option_bind]. split; [|done]. intros _. left.
    by apply (read_nullish h j "id").
Qed.

(** X16: the response handler of [getJobs] throws, and so never calls
    the callback, exactly when there is no error and the response is
    null or undefined or one of the job resources is. *)
Theorem getJobs_response_throws_on_null (h : heap) (that options err resp : value)
    (jobs : list value) :
  BigQuery.getJobs_response h that options err resp jobs = None ↔
  truthy err = false ∧ (nullish resp ∨ Exists nullish jobs).
Proof.
  unfold BigQuery.getJobs_response. destruct (truthy err).
  { split; [done|]. by intros [? _]. }
  destruct (read h resp "nextPageToken") as [token|] eqn:E;
    cbn [mbind option_bind].
  - destruct (BigQuery.next_query h options token) as [h1 nq].
    pose proof (wrap_jobs_None that jobs h1) as Hw.
    destruct (BigQuery.wrap_jobs h1 that jobs) as [[h2 items]|];
      cbn [mbind option_bind].
    + split; [done|]. intros [_ [Hn|He]].
      * apply (read_nullish h resp "nextPageToken") in Hn. congruence.
      * by apply Hw in He.
    + split; [|done]. intros _. split; [done|]. right. by apply Hw.
  - split; [|done]. intros _. split; [done|]. left.
    by apply (read_nullish h resp "nextPageToken").
Qed.

(** The object that [extend({}, options)] makes, read field by field. *)
Lemma get_extend_copy (h : heap) l o k :
  h !! l = Some o →
  get (extend h [props h (VObj l)]).1 (VObj (extend h [props h (VObj l)]).2) k =
  get h (VObj l) k.
Proof.
  intros Hl. unfold extend, alloc, props. rewrite Hl. cbn [fst snd default foldl].
  simpl. rewrite lookup_insert_eq, Hl. simpl. unfold extend_with.
  rewrite (right_id_L ∅ (∪)). apply get_defined.
Qed.

Lemma get_delete_prop_eq (h : heap) l k :
  get (delete_prop h l k) (VObj l) k = VUndefined.
Proof.
  simpl. unfold delete_prop. rewrite lookup_alter_eq.
  destruct (h !! l); simpl; [|done]. by rewrite lookup_delete_eq.
Qed.

Lemma get_delete_prop_ne (h : heap) l k k' :
  k ≠ k' → get (delete_prop h l k) (VObj l) k' = get h (VObj l) k'.
Proof.
  intros Hk. simpl. unfold delete_prop. rewrite lookup_alter_eq.
  destruct (h !! l); simpl; [|done]. by rewrite lookup_delete_ne.
Qed.

Lemma get_delete_prop_other (h : heap) l l' k k' :
  l ≠ l' → get (delete_prop h l k) (VObj l') k' = get h (VObj l') k'.
Proof. intros Hl. simpl. unfold delete_prop. by rewrite lookup_alter_ne. Qed.

(** [query] on an options object, step by step. *)
Lemma query_original_object (h : heap) (that : value) l o :
  h !! l = Some o →
  let rq := fresh (dom h) in
  let h' := delete_prop (<[rq := foldl extend_with ∅ [o]]> h) rq "job" in
  BigQuery.query_original h that (VObj l) =
    (h', if truthy (get h (VObj l) "job")
         then BigQuery.makeReq_ h' that "GET"
                [VStr "/queries/"; get h' (get h (VObj l) "job") "id"]
                (VObj rq) VNull
         else BigQuery.makeReq_ h' that "POST" [VStr "/queries"] VNull (VObj l)).
Proof.
  intros Hl. unfold BigQuery.query_original.
  change (util_is (VObj l) "string") with false. cbn [truthy].
  cbn zeta beta iota. unfold extend, alloc, props. rewrite Hl.
  cbn [default]. by destruct (truthy (get h (VObj l) "job")).
Qed.

(** X17: [query] on an options object leaves every object that existed
    as it was.  When the options hold a job it sends a GET to
    [/queries/<job id>] with no body, and its query string is a new
    object that reads like the options except that it has no [job].
    When they hold none it sends a POST to [/queries] with no query
    string, and the body is the caller's options object itself. *)
Theorem query_request_shape (h : heap) (that : value) (l : loc) (o : obj) :
  h !! l = Some o →
  let h' := (BigQuery.query_original h that (VObj l)).1 in
  let req := (BigQuery.query_original h that (VObj l)).2 in
  let job := get h (VObj l) "job" in
  h ⊆ h' ∧
  (truthy job = true →
     BigQuery.method req = "GET"%string ∧
     BigQuery.uri req = [VStr BigQuery.BIGQUERY_BASE_URL; get h' that "projectId";
                         VStr "/queries/"; get h' job "id"] ∧
     BigQuery.json req = VUndefined ∧
     ∃ rq, BigQuery.qs req = VObj rq ∧ h !! rq = None ∧
           get h' (VObj rq) "job" = VUndefined ∧
           ∀ k, k ≠ "job"%string → get h' (VObj rq) k = get h (VObj l) k) ∧
  (truthy job = false →
     BigQuery.method req = "POST"%string ∧
     BigQuery.uri req = [VStr BigQuery.BIGQUERY_BASE_URL; get h' that "projectId";
                         VStr "/queries"] ∧
     BigQuery.qs req = VNull ∧ BigQuery.json req = VObj l).
Proof.
  intros Hl. cbn zeta. split; [apply query_original_frame|].
  rewrite (query_original_object h that l o Hl). cbn [fst snd].
  pose proof (alloc_fresh h (foldl extend_with ∅ [o])) as Hf. cbn [alloc snd] in Hf.
  split; intros Hj; rewrite Hj; [|done].
  split; [done|]. split; [done|]. split; [done|].
  exists (fresh (dom h)). split; [done|]. split; [done|].
  split; [apply get_delete_prop_eq|].
  intros k Hk. rewrite get_delete_prop_ne by done.
  pose proof (get_extend_copy h l o k Hl) as Hc.
  unfold extend, alloc, props in Hc. rewrite Hl in Hc. exact Hc.
Qed.

Lemma query_request_shape_witness :
  BigQuery.method (BigQuery.query_original
                     (<[1%positive := <[ "job" := VObj 6%positive ]> sample_query]>
                        sample_heap)
                     (VObj 5%positive) (VObj 1%positive)).2 = "GET"%string.
Proof.
  refine (proj1 (proj1 (proj2 (query_request_shape
    (<[1%positive := <[ "job" := VObj 6%positive ]> sample_query]> sample_heap)
    (VObj 5%positive) 1%positive (<[ "job" := VObj 6%positive ]> sample_query)
    eq_refl)) eq_refl)).
Defined.

Lemma get_grounded (h h' : heap) v k :
  grounded h v → h ⊆ h' → get h' v k = get h v k.
Proof.
  intros Hg Hs. destruct v; try done. apply get_stable; [|done]. by apply Hg.
Qed.

Lemma get_insert_eq (h : heap) l (o : obj) k :
  get (<[l := o]> h) (VObj l) k = default VUndefined (o !! k).
Proof. simpl. by rewrite lookup_insert_eq. Qed.

Section QueryResponse.

Variable mergeSchemaWithRows_ : heap → value → value → heap * list value.

(** Building the rows changes no object that exists. *)
Hypothesis merge_new : ∀ h schema rows, h ⊆ (mergeSchemaWithRows_ h schema rows).1.

(** The job that the continuation carries, once the copy [c] of the
    options stands at the new location [l]. *)
Lemma attach_job (h0 h1 : heap) (that : value) (q : loc) (o c : obj)
    (resp : value) (rows : list value) :
  h0 !! q = Some o → h0 ⊆ h1 →
  known_object h0 resp →
  grounded h0 (get h0 resp "jobReference") →
  (truthy (get h0 (VObj q) "job") = true ∨
   ¬ nullish (get h0 resp "jobReference")) →
  (∀ k, k ≠ "pageToken"%string →
        default VUndefined (c !! k) = default VUndefined (o !! k)) →
  let l := fresh (dom h1) in
  let h2 := <[l := c]> h1 in
  ∃ h',
    (if truthy (get h2 (VObj l) "job") then
       Some (h2, BigQuery.Reply VNull (Some rows) (VObj l) resp)
     else
       jobId ← read h2 (get h2 resp "jobReference") "jobId";
       if truthy jobId then
         let '(h, job) := BigQuery.Job h2 that jobId in
         Some (set h l "job" (VObj job),
               BigQuery.Reply VNull (Some rows) (VObj l) resp)
       else Some (h2, BigQuery.Reply VNull (Some rows) (VObj l) resp))
    = Some (h', BigQuery.Reply VNull (Some rows) (VObj l) resp) ∧
    h0 ⊆ h' ∧ h0 !! l = None ∧ is_Some (h' !! l) ∧
    (∀ k, k ≠ "job"%string → get h' (VObj l) k = default VUndefined (c !! k)) ∧
    (let job := get h0 (VObj q) "job" in
     let jobId := get h0 (get h0 resp "jobReference") "jobId" in
     if truthy job then get h' (VObj l) "job" = job
     else if truthy jobId then
       ∃ j, get h' (VObj l) "job" = VObj j ∧ h0 !! j = None ∧
            get h' (VObj j) "id" = jobId ∧ get h' (VObj j) "bigQuery" = that
     else get h' (VObj l) "job" = job).
Proof.
  intros Hq Hs Hresp Hjr Hok Hc l h2.
  assert (h1 !! l = None) as Hl1 by apply (alloc_fresh h1 ∅).
  assert (h0 !! l = None) as Hl0.
  { destruct (h0 !! l) eqn:E; [|done].
    eapply lookup_weaken in E; [|exact Hs]. congruence. }
  assert (h1 ⊆ h2) as Hs12 by (by apply insert_subseteq).
  assert (h0 ⊆ h2) as Hs02 by (by etrans).
  assert (is_Some (h2 !! l)) as Hl2 by (unfold h2; rewrite lookup_insert_eq; eauto).
  assert (get h2 (VObj l) "job" = get h0 (VObj q) "job") as Hjob.
  { unfold h2. rewrite get_insert_eq, Hc by done. simpl. by rewrite Hq. }
  assert (get h2 resp "jobReference" = get h0 resp "jobReference") as Hjr2
    by (by apply get_stable_known).
  rewrite Hjob, Hjr2. cbn zeta.
  destruct (truthy (get h0 (VObj q) "job")) eqn:Ej.
  { exists h2. repeat split; try done. intros k Hk. unfold h2.
    by rewrite get_insert_eq. }
  destruct Hok as [?|Hnn]; [done|].
  rewrite read_some by (intros E; apply Hnn; unfold nullish; auto).
  cbn [mbind option_bind].
  rewrite (get_grounded h0 h2 _ "jobId" Hjr Hs02).
  destruct (truthy (get h0 (get h0 resp "jobReference") "jobId")) eqn:Eid.
  2: { exists h2. repeat split; try done.
       intros k Hk. unfold h2. by rewrite get_insert_eq. }
  destruct (Job_fields h2 that (get h0 (get h0 resp "jobReference") "jobId"))
    as (Hjf & Hjs & Hjsome & Hjbq & Hjid & _).
  destruct (BigQuery.Job h2 that _) as [h3 j]. cbn [fst snd] in *.
  assert (l ≠ j) as Hlj by (intros ->; rewrite Hjf in Hl2; by destruct Hl2).
  assert (is_Some (h3 !! l)) as Hl3.
  { destruct Hl2 as [x Hx]. exists x. by eapply lookup_weaken. }
  exists (set h3 l "job" (VObj j)). split; [done|].
  split; [apply set_frame; [done|by etrans]|].
  split; [done|]. split; [by apply set_is_Some|]. split.
  - intros k Hk. rewrite get_set_ne by done.
    rewrite (get_stable h2 h3) by done. unfold h2. by rewrite get_insert_eq.
  - exists j. split; [by apply get_set_eq|]. split.
    { destruct (h0 !! j) eqn:E; [|done].
      eapply lookup_weaken in E; [|exact Hs02]. congruence. }
    by rewrite !get_set_other by done.
Qed.

Lemma query_response_spec (h : heap) (that : value) (q : loc) (o : obj)
    (resp : value) :
  h !! q = Some o → known_object h resp →
  grounded h (get h resp "jobReference") →
  (truthy (get h (VObj q) "job") = true ∨
   ¬ nullish (get h resp "jobReference")) →
  ∃ h' rows nq,
    BigQuery.query_response mergeSchemaWithRows_ h that (VObj q) VNull resp =
      Some (h', BigQuery.Reply VNull (Some rows) nq resp) ∧
    h ⊆ h' ∧ h' !! q = Some o ∧
    query_continuation h h' that q resp nq.
Proof.
  intros Hq Hresp Hjr Hok. unfold BigQuery.query_response. cbn [truthy].
  rewrite read_some by (by destruct Hresp as (? & -> & _)).
  cbn [mbind option_bind].
  assert (∃ h1 rows, h ⊆ h1 ∧
     (if truthy (get h resp "schema") && truthy (get h resp "rows")
      then mergeSchemaWithRows_ h (get h resp "schema") (get h resp "rows")
      else (h, [])) = (h1, rows)) as (h1 & rows & Hs & ->).
  { destruct (_ && _).
    - pose proof (merge_new h (get h resp "schema") (get h resp "rows")).
      destruct (mergeSchemaWithRows_ h _ _) as [h1 rows]. by exists h1, rows.
    - by exists h, []. }
  assert (props h1 (VObj q) = o) as Hprops.
  { simpl. by rewrite (lookup_weaken _ _ _ _ Hq Hs). }
  rewrite !(get_stable_known h h1 resp) by done.
  unfold query_continuation. cbn zeta.
  destruct (is_false (get h resp "jobComplete")) eqn:Ejc.
  - unfold extend, alloc. rewrite Hprops. cbn [negb andb].
    destruct (attach_job h h1 that q o (foldl extend_with ∅ [o]) resp rows
                Hq Hs Hresp Hjr Hok) as (h' & -> & Hs' & Hl & Hsome & Hk & Hj).
    { intros k _. simpl. unfold extend_with. rewrite (right_id_L ∅ (∪)).
      apply get_defined. }
    exists h', rows, (VObj (fresh (dom h1))). split; [done|]. split; [done|].
    split; [by eapply lookup_weaken|].
    eexists. split; [done|]. split; [done|]. split; [done|].
    split; [|split; [|exact Hj]].
    + intros k Hk1 Hk2. rewrite Hk by done. simpl. unfold extend_with.
      rewrite (right_id_L ∅ (∪)), get_defined. by rewrite Hq.
    + rewrite Hk by done. simpl. unfold extend_with.
      rewrite (right_id_L ∅ (∪)), get_defined. by rewrite Hq.
  - destruct (truthy (get h resp "pageToken")) eqn:Ept; cbn [negb andb].
    + unfold extend, alloc. rewrite Hprops.
      destruct (attach_job h h1 that q o
                  (foldl extend_with ∅ [o; {[ "pageToken" := get h resp "pageToken" ]}])
                  resp rows Hq Hs Hresp Hjr Hok)
        as (h' & -> & Hs' & Hl & Hsome & Hk & Hj).
      { intros k Hk. rewrite extend_pageToken by done.
        rewrite lookup_insert_ne by done. apply get_defined. }
      exists h', rows, (VObj (fresh (dom h1))). split; [done|]. split; [done|].
      split; [by eapply lookup_weaken|].
      eexists. split; [done|]. split; [done|]. split; [done|].
      split; [|split; [|exact Hj]].
      * intros k Hk1 Hk2. rewrite Hk by done. rewrite extend_pageToken by done.
        rewrite lookup_insert_ne by done. rewrite get_defined. simpl. by rewrite Hq.
      * rewrite Hk by done. rewrite extend_pageToken by done.
        by rewrite lookup_insert_eq.
    + exists h1, rows, VNull. split; [done|]. split; [done|].
      split; [by eapply lookup_weaken|done].
Qed.

(** X18: on a successful response the handler of [query] changes no
    object that existed, the caller's options included, and gives the
    callback a [nextQuery] that is null when the job is complete and the
    response has no page token, and otherwise a new object that reads
    like the options, with the page token of the response added when
    the job is complete (while the job runs the page token of the
    options is kept), and with a job: the one of the options, or else a
    new Job for [resp.jobReference.jobId]. *)
Theorem query_response_continuation (h : heap) (that : value) (q : loc)
    (o : obj) (resp : value) :
  h !! q = Some o → known_object h resp →
  grounded h (get h resp "jobReference") →
  (truthy (get h (VObj q) "job") = true ∨
   ¬ nullish (get h resp "jobReference")) →
  ∃ h' rows nq,
    BigQuery.query_response mergeSchemaWithRows_ h that (VObj q) VNull resp =
      Some (h', BigQuery.Reply VNull (Some rows) nq resp) ∧
    h ⊆ h' ∧ h' !! q = Some o ∧
    query_continuation h h' that q resp nq.
Proof. apply query_response_spec. Qed.

(** X19: when the options hold a job or the response names one, the
    [nextQuery] of a successful response, given back to [query], is sent
    as a GET for the results of that job: going on to the next page, or
    waiting for a running job, never posts the query again. *)
Theorem continuation_polls_the_job (h : heap) (that : value) (q : loc)
    (o : obj) (resp : value) :
  h !! q = Some o → known_object h resp →
  grounded h (get h resp "jobReference") →
  (truthy (get h (VObj q) "job") = true ∨
   truthy (get h (get h resp "jobReference") "jobId") = true) →
  ∃ h' rows nq,
    BigQuery.query_response mergeSchemaWithRows_ h that (VObj q) VNull resp =
      Some (h', BigQuery.Reply VNull (Some rows) nq resp) ∧
    (nq ≠ VNull →
     BigQuery.method (BigQuery.query_original h' that nq).2 = "GET"%string ∧
     BigQuery.json (BigQuery.query_original h' that nq).2 = VUndefined).
Proof.
  intros Hq Hresp Hjr Hok.
  destruct (query_response_spec h that q o resp Hq Hresp Hjr)
    as (h' & rows & nq & Hr & Hs & Hq' & Hc).
  { destruct Hok as [?|Hid]; [by left|]. right. intros [E|E];
      rewrite E in Hid; discriminate. }
  exists h', rows, nq. split; [done|]. intros Hne.
  unfold query_continuation in Hc. cbn zeta in Hc.
  destruct (_ && _); [done|].
  destruct Hc as (l & -> & Hl & [o' Ho'] & _ & _ & Hjob).
  assert (truthy (get h' (VObj l) "job") = true) as Ht.
  { destruct (truthy (get h (VObj q) "job")) eqn:Ej; [by rewrite Hjob|].
    destruct Hok as [?|Hid]; [done|]. rewrite Hid in Hjob.
    by destruct Hjob as (j & -> & _). }
  rewrite (query_original_object h' that l o' Ho'). cbn [snd]. by rewrite Ht.
Qed.

End QueryResponse.

(** Rows for the examples: one new row object, whatever the schema. *)
Lemma sample_merge_new (h : heap) (schema rows : value) :
  h ⊆ (sample_merge h schema rows).1.
Proof. unfold sample_merge. by apply (alloc_frame h h ∅). Qed.

Lemma query_response_continuation_witness :
  ∃ h' rows nq,
    BigQuery.query_response sample_merge running_heap (VObj 5%positive)
      (VObj 1%positive) VNull (VObj 2%positive) =
      Some (h', BigQuery.Reply VNull (Some rows) nq (VObj 2%positive)) ∧
    h' !! 1%positive = Some sample_query ∧
    query_continuation running_heap h' (VObj 5%positive) 1%positive
      (VObj 2%positive) nq.
Proof.
  destruct (query_response_continuation sample_merge sample_merge_new
    running_heap (VObj 5%positive) 1%positive sample_query (VObj 2%positive))
    as (h' & rows & nq & H1 & _ & H2 & H3).
  - reflexivity.
  - exists 2%positive. split; [done|]. by eexists.
  - intros l [= <-]. by eexists.
  - right. intros [?|?]; discriminate.
  - exists h', rows, nq. by repeat split.
Defined.

Lemma continuation_polls_the_job_witness :
  ∃ h' rows nq,
    BigQuery.query_response sample_merge running_heap (VObj 5%positive)
      (VObj 1%positive) VNull (VObj 2%positive) =
      Some (h', BigQuery.Reply VNull (Some rows) nq (VObj 2%positive)) ∧
    (nq ≠ VNull →
     BigQuery.method (BigQuery.query_original h' (VObj 5%positive) nq).2
       = "GET"%string).
Proof.
  destruct (continuation_polls_the_job sample_merge sample_merge_new
    running_heap (VObj 5%positive) 1%positive sample_query (VObj 2%positive))
    as (h' & rows & nq & H1 & H2).
  - reflexivity.
  - exists 2%positive. split; [done|]. by eexists.
  - intros l [= <-]. by eexists.
  - right. reflexivity.
  - exists h', rows, nq. split; [exact H1|]. intros Hn. by apply H2.
Defined.

(** ** More on Job *)

(** Evaluate the type tests on values whose constructor is known. *)
Ltac compute_util_is :=
  match goal with
  | |- context [util_is ?v ?t] =>
      let b := eval vm_compute in (util_is v t) in
      change (util_is v t) with b
  end.

Lemma set_fresh_empty (h : heap) l k v :
  set (<[l := ∅]> h) l k v = <[l := {[ k := v ]}]> h.
Proof.
  unfold set. rewrite alter_insert_eq. by rewrite insert_empty.
Qed.

(** X20: [getQueryResults] called with the callback first, or with
    options that are not truthy, goes on with a new object that holds
    the job and nothing else (the callback being the first argument in
    the first case); called with a truthy value that is neither an
    object nor a function (a string, a number, [true]) it throws,
    because it sets a property on a primitive in strict mode. *)
Theorem getQueryResults_without_options (h : heap) (this : loc)
    (options cb : value) :
  (BigQuery.getQueryResults h this options cb = None ↔
     truthy options = true ∧ util_is options "function" = false ∧
     util_is options "object" = false) ∧
  (util_is options "function" = true →
     ∃ l, h !! l = None ∧
          BigQuery.getQueryResults h this options cb =
            Some (<[l := {[ "job" := VObj this ]}]> h, [VObj l; options])) ∧
  (truthy options = false →
     ∃ l, h !! l = None ∧
          BigQuery.getQueryResults h this options cb =
            Some (<[l := {[ "job" := VObj this ]}]> h, [VObj l; cb])).
Proof.
  assert (h !! fresh (dom h) = None) as Hf by apply (alloc_fresh h ∅).
  unfold BigQuery.getQueryResults, alloc.
  destruct options as [| |[]|n|s|f|l]; repeat compute_util_is;
    cbn -[set fresh dom];
    try (destruct (n =? 0) eqn:E); try (destruct (String.eqb s "") eqn:E);
    cbn -[set fresh dom]; rewrite ?set_fresh_empty;
    (split; [split|split]); intros; try done;
    try (by exists (fresh (dom h)));
    try (by match goal with H : _ ∧ _ ∧ _ |- _ => destruct H as (? & ? & ?) end).
Qed.

(** X21: [job.getQueryResults({maxResults: n, ...}, callback)] with a
    limit [n] other than -1 sends, before it returns, one GET to
    [/queries/<id of the job>] with no body; the query string is a new
    object that has the limit of the options and no [job], and the
    callback will get the raw page. *)
Theorem getQueryResults_sends_one_get (h : heap) (this l : loc)
    (o jobobj : obj) (f : nat) (n : Z) (bq : value) :
  h !! l = Some o → h !! this = Some jobobj → this ≠ l →
  o !! "maxResults" = Some (VNum n) → n ≠ -1 →
  ∃ h1 h2 req rq,
    BigQuery.getQueryResults h this (VObj l) (VFun f) =
      Some (h1, [VObj l; VFun f]) ∧
    BigQuery.query h1 bq [VObj l; VFun f] =
      (h2, Direct (VObj l) (VFun f), Some req) ∧
    BigQuery.method req = "GET"%string ∧
    BigQuery.uri req = [VStr BigQuery.BIGQUERY_BASE_URL; get h2 bq "projectId";
                        VStr "/queries/"; get h (VObj this) "id"] ∧
    BigQuery.json req = VUndefined ∧
    BigQuery.qs req = VObj rq ∧ h !! rq = None ∧
    get h2 (VObj rq) "maxResults" = VNum n ∧
    get h2 (VObj rq) "job" = VUndefined ∧
    get h2 (VObj l) "job" = VObj this.
Proof.
  intros Hl Hthis Hne Hmax Hn.
  set (o1 := <[ "job" := VObj this ]> o).
  set (h1 := set h l "job" (VObj this)).
  assert (h1 !! l = Some o1) as Hl1.
  { unfold h1, set. by rewrite lookup_alter_eq, Hl. }
  assert (h1 !! this = Some jobobj) as Hthis1.
  { unfold h1, set. by rewrite lookup_alter_ne. }
  assert (get h1 (VObj l) "maxResults" = VNum n) as Hm1.
  { rewrite (get_object _ _ _ _ Hl1). unfold o1.
    rewrite lookup_insert_ne by done. by rewrite Hmax. }
  assert (get h1 (VObj l) "job" = VObj this) as Hj1.
  { rewrite (get_object _ _ _ _ Hl1). unfold o1. by rewrite lookup_insert_eq. }
  assert (limit_of h1 (VObj l) = n) as Hlim.
  { unfold limit_of. change (util_is (VObj l) "object") with true.
    cbn iota. by rewrite Hm1. }
  assert (StreamRouter.parseArguments_ h1 [VObj l; VFun f] =
            (h1, Descriptor (VObj l) (VFun f) n false)) as Hparse.
  { rewrite (parse_query_truthy h1 [VObj l; VFun f]) by done.
    rewrite parse_autoPaginate.
    change (query_arg [VObj l; VFun f]) with (VObj l).
    change (callback_arg [VObj l; VFun f]) with (VFun f).
    rewrite Hlim. change (util_is (VObj l) "object") with true. cbn [truthy andb].
    apply Z.eqb_neq in Hn. by rewrite Hn. }
  pose proof (query_original_object h1 bq l o1 Hl1) as Hq. cbn zeta in Hq.
  rewrite Hj1 in Hq. cbn [truthy] in Hq.
  pose proof (alloc_fresh h1 (foldl extend_with ∅ [o1])) as Hf1.
  cbn [alloc snd] in Hf1.
  set (rq := fresh (dom h1)) in *.
  set (h2 := delete_prop (<[rq := foldl extend_with ∅ [o1]]> h1) rq "job") in *.
  assert (h1 ⊆ h2) as Hs12.
  { unfold h2. apply delete_prop_frame; [done|]. by apply insert_subseteq. }
  exists h1, h2, (BigQuery.makeReq_ h2 bq "GET"
                    [VStr "/queries/"; get h2 (VObj this) "id"] (VObj rq) VNull), rq.
  split; [done|]. split.
  { unfold BigQuery.query. rewrite Hparse. unfold router_. cbn [callback
      autoPaginate query truthy]. by rewrite Hq. }
  split; [done|]. split.
  { cbn [BigQuery.makeReq_ BigQuery.uri]. do 3 f_equal.
    rewrite (get_stable h1 h2) by (by rewrite ?Hthis1). simpl.
    by rewrite Hthis1, Hthis. }
  split; [done|]. split; [done|]. split.
  { destruct (h !! rq) eqn:E; [|done].
    assert (is_Some (h1 !! rq)) as [? ?]; [|congruence].
    unfold h1. apply set_is_Some. by rewrite E. }
  split.
  { unfold h2. rewrite get_delete_prop_ne by done.
    pose proof (get_extend_copy h1 l o1 "maxResults" Hl1) as Hc.
    unfold extend, alloc, props in Hc. rewrite Hl1 in Hc.
    change (default ∅ (Some o1)) with o1 in Hc. cbn [fst snd] in Hc.
    fold rq in Hc. by rewrite Hc. }
  split; [apply get_delete_prop_eq|].
  rewrite (get_stable h1 h2) by (by rewrite ?Hl1). done.
Qed.

Lemma getQueryResults_sends_one_get_witness :
  ∃ h1 h2 req,
    BigQuery.getQueryResults
      (<[1%positive := {[ "maxResults" := VNum 100 ]}]> sample_heap)
      6%positive (VObj 1%positive) (VFun 0) = Some (h1, [VObj 1%positive; VFun 0]) ∧
    BigQuery.query h1 (VObj 5%positive) [VObj 1%positive; VFun 0] =
      (h2, Direct (VObj 1%positive) (VFun 0), Some req) ∧
    BigQuery.method req = "GET"%string.
Proof.
  destruct (getQueryResults_sends_one_get
    (<[1%positive := {[ "maxResults" := VNum 100 ]}]> sample_heap)
    6%positive 1%positive {[ "maxResults" := VNum 100 ]}
    {[ "bigQuery" := VObj 5%positive; "id" := VStr "j";
       "metadata" := VObj 7%positive ]} 0 100 (VObj 5%positive))
    as (h1 & h2 & req & rq & H1 & H2 & H3 & _); [done..|].
  exists h1, h2, req. by repeat split.
Defined.

(** ** Starting a query job *)

Section StartingQueries.

Variable instanceof_Table : value → bool.

(** X22: [startQuery] throws [Error('A SQL query string is required.')]
    exactly when its argument names no query: every value that is not a
    string or an object, the empty string, and an object whose [query]
    property is not truthy.  When it throws, no object that existed has
    changed. *)
Theorem startQuery_requires_a_query (h : heap) (options : value) :
  (∃ h', BigQuery.startQuery instanceof_Table h options =
           BigQuery.Throws h' (BigQuery.Error "A SQL query string is required.") ∧
         h ⊆ h') ↔
  missing_query h options.
Proof.
  assert (∀ (h1 : heap) (v : value) (P : Prop),
    (∃ h', (if negb (truthy (get h1 v "query")) then
              BigQuery.Throws h1 (BigQuery.Error "A SQL query string is required.")
            else
              let '(h2, defaults) := alloc h1 ∅ in
              let destination := get h2 v "destination" in
              if truthy destination then
                if negb (instanceof_Table destination) then
                  BigQuery.Throws h2 (BigQuery.Error "Destination must be a Table object.")
                else
                  match BigQuery.read_or_throw h2 (get h2 destination "dataset") "id" with
                  | BigQuery.Throws h e => BigQuery.Throws h e
                  | BigQuery.Returns datasetId =>
                  match BigQuery.read_or_throw h2
                          (get h2 (get h2 destination "dataset") "bigQuery")
                          "projectId" with
                  | BigQuery.Throws h e => BigQuery.Throws h e
                  | BigQuery.Returns projectId =>
                      let '(h3, t) := alloc h2 {[ "datasetId" := datasetId;
                                                "projectId" := projectId;
                                                "tableId" := get h2 destination "id" ]} in
                      let h4 := set h3 defaults "destinationTable" (VObj t) in
                      let h5 := match v with
                               | VObj l => delete_prop h4 l "destination"
                               | _ => h4
                               end in
                      BigQuery.Returns (h5, v, defaults)
                  end
                  end
              else BigQuery.Returns (h2, v, defaults)) =
           BigQuery.Throws h' (BigQuery.Error "A SQL query string is required.") ∧
           h ⊆ h') ↔ (truthy (get h1 v "query") = false ∧ h ⊆ h1)) as Hbody.
  { intros h1 v _. destruct (truthy (get h1 v "query")); cbn [negb].
    - split; [|by intros [? _]]. intros (h' & E & _). exfalso.
      unfold alloc in E. cbn zeta beta iota in E.
      repeat case_match; try discriminate; unfold BigQuery.read_or_throw in *;
        repeat case_match; simplify_eq.
    - split; [intros (h' & [= <-] & Hs); by split|].
      intros [_ Hs]. by exists h1. }
  unfold BigQuery.startQuery.
  destruct (if util_is options "string" then _ else _) as [h1 o1] eqn:E1.
  destruct (if truthy o1 then _ else _) as [h2 o2] eqn:E2.
  rewrite (Hbody h2 o2 True). clear Hbody.
  assert (h ⊆ <[fresh (dom h) := ∅]> h) as Hnew.
  { apply insert_subseteq, not_elem_of_dom, is_fresh. }
  destruct options as [| |b|n|s|f|l]; revert E1; compute_util_is; intros [= <- <-];
    cbn [missing_query]; revert E2; cbn [truthy]; unfold alloc; cbn zeta.
  - intros [= <- <-]. by rewrite get_insert_eq.
  - intros [= <- <-]. by rewrite get_insert_eq.
  - destruct b; intros [= <- <-]; [done|]. by rewrite get_insert_eq.
  - destruct (n =? 0); cbn [negb]; intros [= <- <-]; [|done].
    by rewrite get_insert_eq.
  - intros [= <- <-]. rewrite get_insert_eq, lookup_singleton_eq.
    change (truthy (default VUndefined (Some (VStr s))))
      with (negb (String.eqb s "")).
    rewrite negb_false_iff, String.eqb_eq.
    split; [by intros []|]. intros ->. split; [done|].
    apply insert_subseteq, not_elem_of_dom, is_fresh.
  - by intros [= <- <-].
  - intros [= <- <-]. split; [by intros []|done].
Qed.

(** X23: when the options name a query and a destination that is not a
    Table, [startQuery] throws [Error('Destination must be a Table
    object.')]; no object that existed has changed, so the caller's
    options still hold the destination. *)
Theorem startQuery_rejects_other_destinations (h : heap) (l : loc) (o : obj) :
  h !! l = Some o →
  truthy (get h (VObj l) "query") = true →
  truthy (get h (VObj l) "destination") = true →
  instanceof_Table (get h (VObj l) "destination") = false →
  ∃ h', BigQuery.startQuery instanceof_Table h (VObj l) =
          BigQuery.Throws h' (BigQuery.Error "Destination must be a Table object.") ∧
        h ⊆ h' ∧
        get h' (VObj l) "destination" = get h (VObj l) "destination".
Proof.
  intros Hl Hq Hd Ht.
  assert (h ⊆ <[fresh (dom h) := ∅]> h) as Hnew.
  { apply insert_subseteq, not_elem_of_dom, is_fresh. }
  assert (∀ k, get (<[fresh (dom h) := ∅]> h) (VObj l) k = get h (VObj l) k) as Hget.
  { intros k. apply get_stable; [by rewrite Hl|done]. }
  unfold BigQuery.startQuery. compute_util_is. cbn [truthy]. rewrite Hq.
  unfold alloc. cbn [negb]. cbn zeta. rewrite Hget, Hd, Ht. cbn [negb].
  eexists. split; [done|]. split; [done|]. apply Hget.
Qed.

(** X24: when the options name a query and a destination that is a
    Table, [startQuery] goes on with the caller's own options object,
    from which it has deleted [destination] (the other properties and
    the other objects are as they were), and with new defaults whose
    [destinationTable] names the dataset, the project and the table of
    the destination. *)
Theorem startQuery_moves_the_destination (h : heap) (l t : loc) (o : obj)
    (ds : value) :
  h !! l = Some o →
  truthy (get h (VObj l) "query") = true →
  get h (VObj l) "destination" = VObj t → is_Some (h !! t) →
  instanceof_Table (VObj t) = true →
  get h (VObj t) "dataset" = ds →
  ¬ nullish ds → grounded h ds →
  ¬ nullish (get h ds "bigQuery") → grounded h (get h ds "bigQuery") →
  ∃ h' defaults dt,
    BigQuery.startQuery instanceof_Table h (VObj l) =
      BigQuery.Returns (h', VObj l, defaults) ∧
    h !! defaults = None ∧ h !! dt = None ∧
    get h' (VObj l) "destination" = VUndefined ∧
    (∀ k, k ≠ "destination"%string → get h' (VObj l) k = get h (VObj l) k) ∧
    (∀ l' k, l' ≠ l → is_Some (h !! l') → get h' (VObj l') k = get h (VObj l') k) ∧
    get h' (VObj defaults) "destinationTable" = VObj dt ∧
    get h' (VObj dt) "datasetId" = get h ds "id" ∧
    get h' (VObj dt) "projectId" = get h (get h ds "bigQuery") "projectId" ∧
    get h' (VObj dt) "tableId" = get h (VObj t) "id".
Proof.
  intros Hl Hq Hd Htl Ht Hds Hn1 Hg1 Hn2 Hg2.
  set (f1 := fresh (dom h)).
  set (h2 := <[f1 := ∅]> h).
  assert (h !! f1 = None) as Hf1 by apply not_elem_of_dom, is_fresh.
  assert (h ⊆ h2) as Hs2 by (by apply insert_subseteq).
  assert (∀ v k, grounded h v → get h2 v k = get h v k) as Hget.
  { intros v k Hg. by apply get_grounded. }
  assert (grounded h (VObj l)) as Hgl by (intros ? [= <-]; by rewrite Hl).
  assert (grounded h (VObj t)) as Hgt by (by intros ? [= <-]).
  unfold BigQuery.startQuery. compute_util_is. cbn [truthy]. rewrite Hq.
  unfold alloc at 1. cbn [negb]. cbn zeta. fold f1 h2.
  rewrite (Hget (VObj l)) by done. rewrite Hd. cbn [truthy]. rewrite Ht. cbn [negb].
  rewrite (Hget (VObj t)) by done. rewrite Hds.
  rewrite (Hget ds) by done.
  unfold BigQuery.read_or_throw.
  rewrite (read_some h2 ds)
    by (intros E; apply Hn1; rewrite E; (by left) || (by right)).
  rewrite (read_some h2 (get h ds "bigQuery"))
    by (intros E; apply Hn2; rewrite E; (by left) || (by right)).
  rewrite (Hget ds), (Hget (get h ds "bigQuery")), (Hget (VObj t)) by done.
  unfold alloc. cbn zeta.
  set (f2 := fresh (dom h2)).
  set (tbl := ({[ "datasetId" := get h ds "id";
                  "projectId" := get h (get h ds "bigQuery") "projectId";
                  "tableId" := get h (VObj t) "id" ]} : obj)).
  set (h3 := <[f2 := tbl]> h2).
  assert (h2 !! f2 = None) as Hf2 by apply not_elem_of_dom, is_fresh.
  assert (h !! f2 = None) as Hf2'.
  { destruct (h !! f2) eqn:E; [|done].
    eapply lookup_weaken in E; [|exact Hs2]. congruence. }
  assert (f1 ≠ f2) as Hne12.
  { intros E. rewrite <- E in Hf2. unfold h2 in Hf2. by rewrite lookup_insert_eq in Hf2. }
  assert (l ≠ f1) as Hl1 by congruence.
  assert (l ≠ f2) as Hl2 by congruence.
  assert (h ⊆ h3) as Hs3.
  { etrans; [exact Hs2|]. by apply insert_subseteq. }
  set (h4 := set h3 f1 "destinationTable" (VObj f2)).
  exists (delete_prop h4 l "destination"), f1, f2.
  split; [done|]. split; [done|]. split; [done|].
  split; [apply get_delete_prop_eq|]. split.
  { intros k Hk. rewrite get_delete_prop_ne by done.
    unfold h4. rewrite get_set_other by done.
    apply get_stable; [by rewrite Hl|done]. }
  split.
  { intros l' k Hne Hl'. rewrite get_delete_prop_other by done.
    unfold h4. rewrite get_set_other by (intros <-; destruct Hl'; congruence).
    by apply get_stable. }
  split.
  { rewrite get_delete_prop_other by done. unfold h4.
    apply get_set_eq. unfold h3, h2.
    rewrite lookup_insert_ne, lookup_insert_eq by done. by eexists. }
  assert (∀ k, get (delete_prop h4 l "destination") (VObj f2) k =
               default VUndefined (tbl !! k)) as Htbl.
  { intros k. rewrite get_delete_prop_other by done. unfold h4.
    rewrite get_set_other by done. apply get_insert_eq. }
  rewrite !Htbl. by repeat split.
Qed.

End StartingQueries.

Lemma startQuery_rejects_other_destinations_witness :
  ∃ h', BigQuery.startQuery (λ _, false) table_heap (VObj 1%positive) =
          BigQuery.Throws h' (BigQuery.Error "Destination must be a Table object.") ∧
        get h' (VObj 1%positive) "destination" = VObj 2%positive.
Proof.
  destruct (startQuery_rejects_other_destinations (λ _, false) table_heap 1%positive
    {[ "query" := VStr "SELECT 1"; "destination" := VObj 2%positive ]})
    as (h' & H1 & _ & H2); [done..|].
  by exists h'.
Defined.

Lemma startQuery_moves_the_destination_witness :
  ∃ h' defaults dt,
    BigQuery.startQuery sample_is_table table_heap (VObj 1%positive) =
      BigQuery.Returns (h', VObj 1%positive, defaults) ∧
    get h' (VObj 1%positive) "destination" = VUndefined ∧
    get h' (VObj 1%positive) "query" = VStr "SELECT 1" ∧
    get h' (VObj defaults) "destinationTable" = VObj dt ∧
    get h' (VObj dt) "datasetId" = VStr "d" ∧
    get h' (VObj dt) "projectId" = VStr "p" ∧
    get h' (VObj dt) "tableId" = VStr "t".
Proof.
  destruct (startQuery_moves_the_destination sample_is_table table_heap
    1%positive 2%positive
    {[ "query" := VStr "SELECT 1"; "destination" := VObj 2%positive ]}
    (VObj 3%positive))
    as (h' & defaults & dt & H1 & _ & _ & H2 & H3 & _ & H4 & H5 & H6 & H7);
    [done|done|done|done|done|done|by intros [|]|by intros ? [= <-]
    |by intros [|]|by intros ? [= <-]|].
  exists h', defaults, dt. split; [done|]. split; [done|].
  split; [by rewrite H3|]. by repeat split.
Defined.

(** ** Job metadata and new datasets *)

(** X25: for a job made by [new Job(bigQuery, id)], [getMetadata] sends
    a GET to [/jobs/<id>] of the project of [bigQuery], with no query
    string and no body.  When the response comes, in a heap where the
    objects of that time are as they were: on an error the callback gets
    [(err, null, resp)] and nothing changes; otherwise it gets
    [(null, resp, resp)], the job's [metadata] is the response, its [id]
    and [bigQuery] are still those of the constructor, and no other
    object has changed. *)
Theorem getMetadata_replaces_the_metadata (h h2 : heap) (bq id err resp : value) :
  let h1 := (BigQuery.Job h bq id).1 in
  let job := (BigQuery.Job h bq id).2 in
  let req := BigQuery.getMetadata h1 job in
  let out := BigQuery.getMetadata_response h2 job err resp in
  h1 ⊆ h2 →
  BigQuery.method req = "GET"%string ∧
  BigQuery.uri req = [VStr BigQuery.BIGQUERY_BASE_URL; get h1 bq "projectId";
                      VStr "/jobs/"; id] ∧
  BigQuery.qs req = VNull ∧ BigQuery.json req = VUndefined ∧
  (truthy err = true → out = (h2, (err, VNull, resp))) ∧
  (truthy err = false →
     out.2 = (VNull, resp, resp) ∧
     get out.1 (VObj job) "metadata" = resp ∧
     get out.1 (VObj job) "id" = id ∧
     get out.1 (VObj job) "bigQuery" = bq ∧
     ∀ l k, l ≠ job → get out.1 (VObj l) k = get h2 (VObj l) k).
Proof.
  intros h1 job req out Hs.
  destruct (Job_fields h bq id) as (Hf & Hs1 & Hj & Hbq & Hid & _).
  fold h1 job in Hf, Hs1, Hj, Hbq, Hid.
  assert (is_Some (h2 !! job)) as Hj2.
  { destruct Hj as [x Hx]. exists x. by eapply lookup_weaken. }
  unfold req, out, BigQuery.getMetadata, BigQuery.getMetadata_response.
  cbn [BigQuery.makeReq_ BigQuery.method BigQuery.uri BigQuery.qs BigQuery.json truthy].
  rewrite Hbq, Hid.
  split; [done|]. split; [done|]. split; [done|]. split; [done|].
  split; intros ->; [done|]. cbn [fst snd].
  rewrite get_set_eq by done. split; [done|]. split; [done|].
  rewrite !get_set_ne by done.
  rewrite !(get_stable h1 h2) by done.
  split; [done|]. split; [done|].
  intros l k Hne. by rewrite get_set_other.
Qed.

Lemma getMetadata_replaces_the_metadata_witness :
  let job := (BigQuery.Job sample_heap (VObj 5%positive) (VStr "j1")).2 in
  let h1 := (BigQuery.Job sample_heap (VObj 5%positive) (VStr "j1")).1 in
  BigQuery.uri (BigQuery.getMetadata h1 job) =
    [VStr BigQuery.BIGQUERY_BASE_URL; VStr "p"; VStr "/jobs/"; VStr "j1"] ∧
  get (BigQuery.getMetadata_response h1 job VNull (VObj 2%positive)).1
    (VObj job) "metadata" = VObj 2%positive.
Proof.
  destruct (getMetadata_replaces_the_metadata sample_heap
    (BigQuery.Job sample_heap (VObj 5%positive) (VStr "j1")).1
    (VObj 5%positive) (VStr "j1") VNull (VObj 2%positive))
    as (_ & H1 & _ & _ & _ & H2); [done|].
  split; [exact H1|]. by destruct (H2 eq_refl) as (_ & H3 & _).
Defined.

Section NewDataset.

Variable dataset : heap → value → value → heap * loc.

(** The constructor of Dataset makes a new object and changes none that
    existed. *)
Hypothesis dataset_made : ∀ h that id,
  h !! (dataset h that id).2 = None ∧ h ⊆ (dataset h that id).1 ∧
  is_Some ((dataset h that id).1 !! (dataset h that id).2).

(** X26: [createDataset(id, callback)] sends a POST to [/datasets] with
    no query string; the body is a new object whose
    [datasetReference.datasetId] is the id, and no object that existed
    has changed.  On a response without error the callback gets
    [(null, dataset, resp)] where the dataset is a new object whose
    [metadata] is the response; on an error it gets [(err, null, resp)]
    and no dataset is made. *)
Theorem createDataset_round_trip (h h2 : heap) (this that id err resp : value) :
  let h1 := (BigQuery.createDataset h this id).1 in
  let req := (BigQuery.createDataset h this id).2 in
  let out := BigQuery.createDataset_response dataset h2 that id err resp in
  h ⊆ h1 ∧
  BigQuery.method req = "POST"%string ∧
  BigQuery.uri req = [VStr BigQuery.BIGQUERY_BASE_URL; get h1 this "projectId";
                      VStr "/datasets"] ∧
  BigQuery.qs req = VNull ∧
  (∃ body, BigQuery.json req = VObj body ∧ h !! body = None ∧
           get h1 (get h1 (VObj body) "datasetReference") "datasetId" = id) ∧
  (truthy err = true → out = (h2, (err, VNull, resp))) ∧
  (truthy err = false →
     ∃ ds, out.2 = (VNull, VObj ds, resp) ∧ h2 !! ds = None ∧ h2 ⊆ out.1 ∧
           get out.1 (VObj ds) "metadata" = resp).
Proof.
  intros h1 req out.
  set (f1 := fresh (dom h)).
  set (g := <[f1 := ({[ "datasetId" := id ]} : obj)]> h).
  set (f2 := fresh (dom g)).
  assert (h !! f1 = None) as Hf1 by apply not_elem_of_dom, is_fresh.
  assert (g !! f2 = None) as Hf2 by apply not_elem_of_dom, is_fresh.
  assert (h ⊆ g) as Hg by (by apply insert_subseteq).
  assert (f1 ≠ f2) as Hne.
  { intros E. rewrite <- E in Hf2. unfold g in Hf2. by rewrite lookup_insert_eq in Hf2. }
  assert (h1 = <[f2 := ({[ "datasetReference" := VObj f1 ]} : obj)]> g) as Eh1 by done.
  split.
  { rewrite Eh1. etrans; [exact Hg|]. by apply insert_subseteq. }
  split; [done|]. split; [done|]. split; [done|]. split.
  { exists f2. split; [done|]. split.
    - destruct (h !! f2) eqn:E; [|done].
      eapply lookup_weaken in E; [|exact Hg]. congruence.
    - rewrite Eh1, get_insert_eq, lookup_singleton_eq. cbn [default].
      simpl. rewrite lookup_insert_ne by done. unfold g.
      by rewrite lookup_insert_eq, lookup_singleton_eq. }
  unfold out, BigQuery.createDataset_response.
  split; intros ->; [done|].
  destruct (dataset_made h2 that id) as (Hd1 & Hd2 & Hd3).
  destruct (dataset h2 that id) as [h3 ds]. cbn [fst snd] in *.
  exists ds. split; [done|]. split; [done|]. split.
  - by apply set_frame.
  - by apply get_set_eq.
Qed.

End NewDataset.

Lemma sample_dataset_made h that id :
  h !! (sample_dataset h that id).2 = None ∧ h ⊆ (sample_dataset h that id).1 ∧
  is_Some ((sample_dataset h that id).1 !! (sample_dataset h that id).2).
Proof.
  split; [apply alloc_fresh|]. split; [by apply alloc_frame|].
  unfold sample_dataset, alloc. cbn [fst snd]. rewrite lookup_insert_eq. by eexists.
Qed.

Lemma createDataset_round_trip_witness :
  ∃ ds, (BigQuery.createDataset_response sample_dataset sample_heap (VObj 5%positive)
           (VStr "d") VNull (VObj 2%positive)).2 = (VNull, VObj ds, VObj 2%positive) ∧
        sample_heap !! ds = None.
Proof.
  destruct (createDataset_round_trip sample_dataset sample_dataset_made
    sample_heap sample_heap (VObj 5%positive) (VObj 5%positive) (VStr "d")
    VNull (VObj 2%positive)) as (_ & _ & _ & _ & _ & _ & H).
  destruct (H eq_refl) as (ds & H1 & H2 & _). by exists ds.
Defined.

(** ** Streaming the jobs *)

(** X27: [getJobs(query)] without callback returns a stream; when it is
    read, the first fetch is for the caller's query object itself.  If
    the response has a page token and the limit of the query is not
    reached by the jobs of the response, the stream pushes one new Job
    object per job resource and asks for the next page with a new query
    object that holds the token and otherwise reads like the caller's,
    which has not changed. *)
Theorem getJobs_stream_follows_the_token (h : heap) (that resp : value)
    (q : loc) (o : obj) (jobs : list value) :
  h !! q = Some o →
  Forall (known_object h) jobs → ¬ nullish resp →
  truthy (get h resp "nextPageToken") = true →
  (limit_of h (VObj q) < 0 ∨ Z.of_nat (length jobs) < limit_of h (VObj q)) →
  ∃ stream h' r s nq,
    extended_method h [VObj q] = (h, Streaming stream) ∧
    BigQuery.getJobs_response h that (VObj q) VNull resp jobs = Some (h', r) ∧
    run passive stream [Reading; Result (page_of r)] = Some s ∧
    calls s = [VObj q; VObj nq] ∧ h !! nq = None ∧
    get h' (VObj nq) "pageToken" = get h resp "nextPageToken" ∧
    (∀ k, k ≠ "pageToken"%string → get h' (VObj nq) k = get h (VObj q) k) ∧
    h ⊆ h' ∧
    Forall2 (job_for h h' that) jobs (pushed (out s)) ∧
    streamEnded s = false ∧ in_flight s = 1%nat.
Proof.
  intros Hq Hk Hr Ht Hlim.
  set (token := get h resp "nextPageToken") in *.
  set (d := Descriptor (VObj q) VUndefined (limit_of h (VObj q)) true).
  assert (extended_method h [VObj q] = (h, Streaming (runAsStream_ d))) as Hext.
  { unfold extended_method. rewrite (parse_query_truthy h [VObj q]) by done.
    rewrite parse_autoPaginate. by compute_util_is. }
  destruct (next_query_copy h q o token Hq Ht) as (nq & Enq & Hnq).
  set (h1 := <[nq := <[ "pageToken" := token ]> (filter (λ kv, defined kv.2) o)]> h) in *.
  assert (h ⊆ h1) as Hs1 by (by apply insert_subseteq).
  destruct (wrap_jobs_items that jobs h h1 Hk Hs1) as (h' & items & Ew & Hs' & Hall & _).
  assert (BigQuery.getJobs_response h that (VObj q) VNull resp jobs =
          Some (h', BigQuery.Reply VNull (Some items) (VObj nq) resp)) as Hresp.
  { unfold BigQuery.getJobs_response. cbn [truthy].
    rewrite read_some by (intros E; apply Hr; rewrite E; (by left) || (by right)).
    cbn [mbind option_bind]. fold token. rewrite Enq, Ew. done. }
  assert (Forall2 (job_for h h' that) jobs items) as Hjobs.
  { eapply Forall2_impl; [exact Hall|].
    intros j item (l & -> & Hl & H1 & H2 & H3). exists l.
    split; [done|]. split; [|done].
    destruct (h !! l) eqn:E; [|done].
    eapply lookup_weaken in E; [|exact Hs1]. congruence. }
  assert (forallb truthy items = true) as Htr.
  { apply Is_true_true, forallb_True, Forall_forall. intros v Hin.
    apply list_elem_of_lookup in Hin as [i Hi]. apply Is_true_true.
    by destruct (Forall2_lookup_r _ _ _ _ _ Hjobs Hi) as (j & _ & (l & -> & _)). }
  set (p := page_of (BigQuery.Reply VNull (Some items) (VObj nq) resp)).
  set (s1 := called_back (originalMethod (VObj q) (start_reading (runAsStream_ d)))).
  pose proof (onResultSet_whole_page passive (λ _, eq_refl) p s1) as Hpage.
  cbn zeta in Hpage.
  exists (runAsStream_ d), h', (BigQuery.Reply VNull (Some items) (VObj nq) resp),
    (onResultSet passive p s1), nq.
  split; [done|]. split; [done|]. split; [done|].
  rewrite Hpage; [| done | done |].
  2: { cbn. rewrite <- (Forall2_length _ _ _ Hjobs). exact Hlim. }
  cbn -[get]. rewrite firstn_all, pushed_map_push.
  split; [done|]. split; [done|]. split.
  { rewrite (get_stable h1 h') by (by unfold h1; rewrite ?lookup_insert_eq).
    unfold h1. rewrite get_insert_eq. by rewrite lookup_insert_eq. }
  split.
  { intros k Hne.
    rewrite (get_stable h1 h') by (by unfold h1; rewrite ?lookup_insert_eq).
    rewrite (get_copy h h1 nq q o token k Hq) by (by unfold h1; rewrite lookup_insert_eq).
    by destruct (decide _). }
  split; [by etrans|]. done.
Qed.

Lemma getJobs_stream_follows_the_token_witness :
  ∃ stream h' r s nq,
    extended_method sample_heap [VObj 1%positive] = (sample_heap, Streaming stream) ∧
    BigQuery.getJobs_response sample_heap (VObj 5%positive) (VObj 1%positive) VNull
      (VObj 2%positive) [VObj 8%positive] = Some (h', r) ∧
    run passive stream [Reading; Result (page_of r)] = Some s ∧
    calls s = [VObj 1%positive; VObj nq] ∧
    get h' (VObj nq) "pageToken" = VStr "t1".
Proof.
  destruct (getJobs_stream_follows_the_token sample_heap (VObj 5%positive)
    (VObj 2%positive) 1%positive sample_query [VObj 8%positive])
    as (stream & h' & r & s & nq & H1 & H2 & H3 & H4 & _ & H5 & _).
  - done.
  - apply Forall_singleton. exists 8%positive. by split.
  - by intros [|].
  - done.
  - by left.
  - by exists stream, h', r, s, nq.
Defined.
